(** * The [ipfs p2p] commands of go-ipfs (core/commands/p2p.go)

    A shallow embedding of the command bodies ([Run] functions) of
    [P2PCmd] and of the node check [p2pGetNode], with the statements the
    specification makes about them.

    State is passed explicitly: a command takes the request and the
    invocation context (what [req.InvocContext().GetNode()] gives) and
    returns the response together with the context afterwards. *)

From Stdlib Require Import String Ascii ZArith NArith List Lia.
From stdpp Require Import gmap list strings pretty.

Local Open Scope Z_scope.

(** ** Values of the libraries the file imports *)

(** A Go [error], by its message. *)
Abbreviation error := string (only parsing).

(** A Go [(value, error)] result whose value is only used when the error
    is nil. *)
Inductive result (A : Type) : Type :=
| Ok (a : A)
| Err (e : error).
Arguments Ok {A} a.
Arguments Err {A} e.

(** [ma.Multiaddr]: the binary form of the address; [Equal] compares the
    bytes. *)
Abbreviation Multiaddr := string (only parsing).

Definition Equal (a b : Multiaddr) : bool := String.eqb a b.

(** [protocol.ID] is a string type; [peer.ID] too. *)
Abbreviation protocol_ID := string (only parsing).
Abbreviation peer_ID := string (only parsing).

(** [ipfsaddr.IPFSAddr]: an interface value with [ID()] and
    [Multiaddr()]; a nil interface is [None] where it matters. *)
Record IPFSAddr := mkIPFSAddr {
  ID : peer_ID;
  addrMultiaddr : Multiaddr
}.

(** [strings.HasPrefix s prefix]. *)
Definition HasPrefix (s pre : string) : bool := String.prefix pre s.

(** [strings.Join elems sep]. *)
Definition Join (elems : list string) (sep : string) : string :=
  String.concat sep elems.

(** ** The p2p package, as far as the commands read it *)

(** [p2p.Listener] through its three accessors. *)
Record Listener := mkListener {
  Protocol : protocol_ID;
  ListenAddress : Multiaddr;
  TargetAddress : Multiaddr
}.

(** The fields of a registered stream that the commands read. *)
Record Stream := mkStream {
  sProtocol : protocol_ID;
  OriginAddr : Multiaddr;
  TargetAddr : Multiaddr
}.

#[global] Instance Listener_eq_dec : EqDecision Listener.
Proof. solve_decision. Defined.

#[global] Instance Stream_eq_dec : EqDecision Stream.
Proof. solve_decision. Defined.

(** [n.P2P]: the two registries.

    [Streams] is ranged over with a [uint64] key
    ([strconv.FormatUint(id, 10)], [handlerID != id]): a Go map from
    handles to streams.

    Modelled from the spec: the type of [Listeners.Listeners] is declared
    in package p2p, which is not part of the sources at hand; the
    specification describes the listener registry as an insertion-ordered
    mapping, taken here as the sequence of registered listeners in
    insertion order. *)
Record P2P := mkP2P {
  Listeners : list Listener;
  Streams : gmap N Stream
}.

(** [pstore.Peerstore] as the log of [AddAddr] calls. *)
Definition Peerstore := list (peer_ID * Multiaddr * Z).

Record Config := mkConfig {
  Libp2pStreamMounting : bool
}.

(** [core.IpfsNode]: what the commands read of it. *)
Record IpfsNode := mkNode {
  RepoConfig : result Config;
  OnlineMode : bool;
  nodeP2P : P2P;
  nodePeerstore : Peerstore
}.

(** [req.InvocContext().GetNode()]. *)
Definition InvocContext := result IpfsNode.

(** Functions and constants that the file takes from other packages. *)
Record Externals := mkExternals {
  (** [ma.NewMultiaddr] *)
  NewMultiaddr : string -> result Multiaddr;
  (** [Multiaddr.String] *)
  MultiaddrString : Multiaddr -> string;
  (** [ipfsaddr.ParseString], with both components of the Go result *)
  ParseString : string -> option IPFSAddr * option error;
  (** [strconv.ParseUint s 10 64] *)
  ParseUint : string -> result N;
  (** [strconv.FormatUint id 10] *)
  FormatUint : N -> string;
  (** [ErrNotOnline], declared elsewhere in package commands *)
  ErrNotOnline : error;
  (** [pstore.TempAddrTTL] *)
  TempAddrTTL : Z;
  (** what releasing the bound resource of a listener reports *)
  releaseListener : Listener -> option error;
  (** [ForwardLocal] of package p2p: registries afterwards and the error *)
  ForwardLocal : peer_ID -> protocol_ID -> Multiaddr -> P2P -> P2P * option error;
  (** [ForwardRemote] of package p2p *)
  ForwardRemote : protocol_ID -> Multiaddr -> P2P -> P2P * option error
}.

(** Modelled from the spec: [Listener.Close] is defined in package p2p; by
    the specification it stops the listener and releases the bound
    resource, removes it from the registry (a no-op if absent), does not
    disturb other listeners and leaves the streams alone. *)
Definition Close (X : Externals) (l : Listener) (p : P2P) : P2P * option error :=
  ({| Listeners := filter (fun x => x <> l) (Listeners p);
      Streams := Streams p |},
   releaseListener X l).

(** Modelled from the spec: [Stream.Reset] is defined in package p2p; by
    the specification a reset terminates the stream and removes it from
    the registry, synchronously; removal is idempotent. The stream is
    named by the handle it is registered under. *)
Definition Reset (id : N) (p : P2P) : P2P :=
  {| Listeners := Listeners p; Streams := delete id (Streams p) |}.

(** ** Requests and responses (package commands) *)

(** P2PProtoPrefix is the default required prefix for protocol names *)
Definition P2PProtoPrefix : string := "/x/"%string.

(** P2PListenerInfoOutput is output type of ls command *)
Record P2PListenerInfoOutput := mkListenerInfo {
  liProtocol : string;
  liListenAddress : string;
  liTargetAddress : string
}.

(** P2PStreamInfoOutput is output type of streams command *)
Record P2PStreamInfoOutput := mkStreamInfo {
  HandlerID : string;
  siProtocol : string;
  OriginAddress : string;
  TargetAddress_ : string
}.

(** What [res.SetOutput] is given: nil, [*P2PLsOutput],
    [*P2PStreamsOutput] or an int. *)
Inductive Value :=
| VNil
| VLs (listeners : list P2PListenerInfoOutput)
| VStreams (streams : list P2PStreamInfoOutput)
| VInt (n : Z).

Record Response := mkResponse {
  resOutput : option Value;
  resError : option error
}.

Definition newResponse : Response :=
  {| resOutput := None; resError := None |}.

Definition SetError (e : error) (res : Response) : Response :=
  {| resOutput := resOutput res; resError := Some e |}.

Definition SetOutput (v : Value) (res : Response) : Response :=
  {| resOutput := Some v; resError := resError res |}.

(** [req.Option(name).Bool()] and [.String()]: value, found, error. *)
Record BoolOpt := mkBoolOpt {
  bValue : bool;
  bFound : bool;
  bErr : option error
}.

Record StringOpt := mkStringOpt {
  sValue : string;
  sFound : bool;
  sErr : option error
}.

(** The request, per command: the arguments and options its [Run] reads. *)
Record ForwardReq := mkForwardReq {
  fwProtocol : string;       (* req.Arguments()[0] *)
  fwListen : string;         (* req.Arguments()[1] *)
  fwTarget : string;         (* req.Arguments()[2] *)
  fwAllowCustom : BoolOpt    (* --allow-custom-protocol *)
}.

Record ListenReq := mkListenReq {
  lnProtocol : string;       (* req.Arguments()[0] *)
  lnTarget : string;         (* req.Arguments()[1] *)
  lnAllowCustom : BoolOpt    (* --allow-custom-protocol *)
}.

Record CloseReq := mkCloseReq {
  clAll : BoolOpt;           (* --all *)
  clProtocol : StringOpt;    (* --protocol *)
  clListen : StringOpt;      (* --listen-address *)
  clTarget : StringOpt       (* --target-address *)
}.

Record StreamCloseReq := mkStreamCloseReq {
  scArguments : list string; (* req.Arguments(): the optional id *)
  scAll : BoolOpt            (* --all *)
}.

(** A call either returns or panics on a nil interface value. *)
Inductive Outcome (A : Type) : Type :=
| Returns (a : A)
| NilDereference.
Arguments Returns {A} a.
Arguments NilDereference {A}.

Section Commands.

Variable X : Externals.

(** ** p2pGetNode *)

Definition p2pGetNode (ctx : InvocContext) : result IpfsNode :=
  match ctx with
  | Err err => Err err
  | Ok n =>
    match RepoConfig n with
    | Err err => Err err
    | Ok config =>
      if negb (Libp2pStreamMounting config) then
        Err "libp2p stream mounting not enabled"%string
      else if negb (OnlineMode n) then
        Err (ErrNotOnline X)
      else Ok n
    end
  end.

(** The node with its registries replaced. *)
Definition withP2P (n : IpfsNode) (p : P2P) : IpfsNode :=
  {| RepoConfig := RepoConfig n; OnlineMode := OnlineMode n;
     nodeP2P := p; nodePeerstore := nodePeerstore n |}.

(** ** p2pCloseCmd *)

(** The closure [match] of the command. *)
Definition matchListener (closeAll p l t : bool) (proto : protocol_ID)
    (listen target : Multiaddr) (listener : Listener) : bool :=
  if closeAll then true
  else if p && negb (String.eqb proto (Protocol listener)) then false
  else if l && negb (Equal listen (ListenAddress listener)) then false
  else if t && negb (Equal target (TargetAddress listener)) then false
  else true.

(** The selection loop: [todo] grows by the listeners that match. *)
Fixpoint selectTodo (mtch : Listener -> bool) (ls todo : list Listener)
    : list Listener :=
  match ls with
  | [] => todo
  | l :: rest =>
    if negb (mtch l) then selectTodo mtch rest todo
    else selectTodo mtch rest (todo ++ [l])
  end.

(** The closing loop: every listener of [todo] is closed, the errors are
    collected. *)
Fixpoint closeTodo (todo : list Listener) (p : P2P) (errs : list string)
    : P2P * list string :=
  match todo with
  | [] => (p, errs)
  | l :: rest =>
    let '(p', e) := Close X l p in
    match e with
    | Some err => closeTodo rest p' (errs ++ [err])
    | None => closeTodo rest p' errs
    end
  end.

Definition p2pCloseCmd_Run (req : CloseReq) (ctx : InvocContext)
    : Response * InvocContext :=
  let res := newResponse in
  match p2pGetNode ctx with
  | Err err => (SetError err res, ctx)
  | Ok n =>
    let closeAll := bValue (clAll req) in
    let protoOpt := sValue (clProtocol req) in
    let p := sFound (clProtocol req) in
    let listenOpt := sValue (clListen req) in
    let l := sFound (clListen req) in
    let targetOpt := sValue (clTarget req) in
    let t := sFound (clTarget req) in
    let proto := protoOpt in
    match NewMultiaddr X listenOpt with
    | Err err => (SetError err res, ctx)
    | Ok listen =>
      match NewMultiaddr X targetOpt with
      | Err err => (SetError err res, ctx)
      | Ok target =>
        if negb (closeAll || p || l || t) then
          (SetError "no matching options given"%string res, ctx)
        else if closeAll && (p || l || t) then
          (SetError "can't combine --all with other matching options"%string res,
           ctx)
        else
          let mtch := matchListener closeAll p l t proto listen target in
          let todo := selectTodo mtch (Listeners (nodeP2P n)) [] in
          let '(p2p', errs) := closeTodo todo (nodeP2P n) [] in
          let ctx' := Ok (withP2P n p2p') in
          if negb (length errs =? 0)%nat then
            (SetError
               (String.append "errors when closing streams: "%string
                  (Join errs "; "%string)) res, ctx')
          else
            (SetOutput (VInt (Z.of_nat (length todo))) res, ctx')
      end
    end
  end.

(** ** p2pForwardCmd and p2pListenCmd *)

(** forwardRemote forwards libp2p service connections to a manet address *)
Definition forwardRemote (p : P2P) (proto : protocol_ID) (target : Multiaddr)
    : P2P * option error :=
  ForwardRemote X proto target p.

(** forwardLocal forwards local connections to a libp2p service.
    [addr.ID()] on a nil [addr] panics. *)
Definition forwardLocal (p : P2P) (ps : Peerstore) (proto : protocol_ID)
    (bindAddr : Multiaddr) (addr : option IPFSAddr)
    : Outcome (P2P * Peerstore * option error) :=
  let ps' :=
    match addr with
    | Some a => ps ++ [(ID a, addrMultiaddr a, TempAddrTTL X)]
    | None => ps
    end in
  match addr with
  | None => NilDereference
  | Some a =>
    let '(p', err) := ForwardLocal X (ID a) proto bindAddr p in
    Returns (p', ps', err)
  end.

(** The end of [p2pForwardCmd]: the error of [forwardLocal] if there is
    one, else a nil output; the node carries what the call did. *)
Definition forwardOutcome (n : IpfsNode)
    (o : Outcome (P2P * Peerstore * option error))
    : Outcome (Response * InvocContext) :=
  match o with
  | NilDereference => NilDereference
  | Returns (p2p', ps', ferr) =>
    let ctx' :=
      Ok {| RepoConfig := RepoConfig n; OnlineMode := OnlineMode n;
            nodeP2P := p2p'; nodePeerstore := ps' |} in
    Returns (match ferr with
             | Some err => SetError err newResponse
             | None => SetOutput VNil newResponse
             end, ctx')
  end.

(** The end of [p2pListenCmd], after [forwardRemote]. *)
Definition listenOutcome (n : IpfsNode) (o : P2P * option error)
    : Response * InvocContext :=
  (match o.2 with
   | Some err => SetError err newResponse
   | None => SetOutput VNil newResponse
   end, Ok (withP2P n o.1)).

Definition namespaceError : error :=
  String.append "protocol name must be within '"%string
    (String.append P2PProtoPrefix "' namespace"%string).

Definition p2pForwardCmd_Run (req : ForwardReq) (ctx : InvocContext)
    : Outcome (Response * InvocContext) :=
  let res := newResponse in
  match p2pGetNode ctx with
  | Err err => Returns (SetError err res, ctx)
  | Ok n =>
    let protoOpt := fwProtocol req in
    let listenOpt := fwListen req in
    let targetOpt := fwTarget req in
    let proto := protoOpt in
    match NewMultiaddr X listenOpt with
    | Err err => Returns (SetError err res, ctx)
    | Ok listen =>
      let '(target, perr) := ParseString X targetOpt in
      match perr with
      | Some err => Returns (SetError err res, ctx)
      | None =>
        let allowCustom := bValue (fwAllowCustom req) in
        match bErr (fwAllowCustom req) with
        | Some err => Returns (SetError err res, ctx)
        | None =>
          if negb allowCustom && negb (HasPrefix proto P2PProtoPrefix) then
            Returns (SetError namespaceError res, ctx)
          else
            forwardOutcome n
              (forwardLocal (nodeP2P n) (nodePeerstore n) proto listen target)
        end
      end
    end
  end.

Definition p2pListenCmd_Run (req : ListenReq) (ctx : InvocContext)
    : Response * InvocContext :=
  let res := newResponse in
  match p2pGetNode ctx with
  | Err err => (SetError err res, ctx)
  | Ok n =>
    let protoOpt := lnProtocol req in
    let targetOpt := lnTarget req in
    let proto := protoOpt in
    match NewMultiaddr X targetOpt with
    | Err err => (SetError err res, ctx)
    | Ok target =>
      let allowCustom := bValue (lnAllowCustom req) in
      match bErr (lnAllowCustom req) with
      | Some err => (SetError err res, ctx)
      | None =>
        if negb allowCustom && negb (HasPrefix proto P2PProtoPrefix) then
          (SetError namespaceError res, ctx)
        else
          listenOutcome n (forwardRemote (nodeP2P n) proto target)
      end
    end
  end.

(** ** p2pLsCmd *)

Definition listenerInfo (listener : Listener) : P2PListenerInfoOutput :=
  {| liProtocol := Protocol listener;
     liListenAddress := MultiaddrString X (ListenAddress listener);
     liTargetAddress := MultiaddrString X (TargetAddress listener) |}.

Definition p2pLsCmd_Run (ctx : InvocContext) : Response * InvocContext :=
  let res := newResponse in
  match p2pGetNode ctx with
  | Err err => (SetError err res, ctx)
  | Ok n =>
    let output := map listenerInfo (Listeners (nodeP2P n)) in
    (SetOutput (VLs output) res, ctx)
  end.

(** ** Ranging over the stream map

    A Go [range] over a map visits every entry once, in an order the
    language leaves unspecified and the runtime varies from one loop to the
    next. The order of one loop is an argument of the command: any
    arrangement of the entries of the map. *)
Definition rangeOrder (m : gmap N Stream) (order : list (N * Stream)) : Prop :=
  order ≡ₚ map_to_list m.

(** ** p2pStreamLsCmd *)

Definition streamInfo (entry : N * Stream) : P2PStreamInfoOutput :=
  let '(id, s) := entry in
  {| HandlerID := FormatUint X id;
     siProtocol := sProtocol s;
     OriginAddress := MultiaddrString X (OriginAddr s);
     TargetAddress_ := MultiaddrString X (TargetAddr s) |}.

Definition p2pStreamLsCmd_Run (order : list (N * Stream)) (ctx : InvocContext)
    : Response * InvocContext :=
  let res := newResponse in
  match p2pGetNode ctx with
  | Err err => (SetError err res, ctx)
  | Ok n =>
    let output := map streamInfo order in
    (SetOutput (VStreams output) res, ctx)
  end.

(** ** p2pStreamCloseCmd *)

(** A record of what the closing loop did, kept beside the state: the
    handles [Reset] was called on (in call order) and the number of entries
    the loop looked at. *)
Record Trace := mkTrace {
  trResets : list N;
  trVisited : nat
}.

Definition noTrace : Trace := {| trResets := []; trVisited := 0%nat |}.

Fixpoint resetLoop (closeAll : bool) (handlerID : N)
    (order : list (N * Stream)) (p : P2P) (tr : Trace) : P2P * Trace :=
  match order with
  | [] => (p, tr)
  | (id, stream) :: rest =>
    let seen := S (trVisited tr) in
    if negb closeAll && negb (N.eqb handlerID id) then
      resetLoop closeAll handlerID rest p
        {| trResets := trResets tr; trVisited := seen |}
    else
      let p' := Reset id p in
      let tr' := {| trResets := trResets tr ++ [id]; trVisited := seen |} in
      if negb closeAll then (p', tr')
      else resetLoop closeAll handlerID rest p' tr'
  end.

Definition p2pStreamCloseCmd_Run (order : list (N * Stream))
    (req : StreamCloseReq) (ctx : InvocContext)
    : Response * InvocContext * Trace :=
  let res := SetOutput VNil newResponse in
  match p2pGetNode ctx with
  | Err err => (SetError err res, ctx, noTrace)
  | Ok n =>
    let closeAll := bValue (scAll req) in
    let parsed : result N :=
      if negb closeAll then
        match scArguments req with
        | [] => Err "no id specified"%string
        | arg :: _ => ParseUint X arg
        end
      else Ok 0%N in
    match parsed with
    | Err err => (SetError err res, ctx, noTrace)
    | Ok handlerID =>
      let '(p2p', tr) := resetLoop closeAll handlerID order (nodeP2P n) noTrace in
      (res, Ok (withP2P n p2p'), tr)
    end
  end.

End Commands.

(** ** Reading the registries off a context *)

Definition registeredListeners (ctx : InvocContext) : list Listener :=
  match ctx with
  | Ok n => Listeners (nodeP2P n)
  | Err _ => []
  end.

Definition registeredStreams (ctx : InvocContext) : gmap N Stream :=
  match ctx with
  | Ok n => Streams (nodeP2P n)
  | Err _ => ∅
  end.

(** An option string parses as a multiaddr. *)
Definition parses (X : Externals) (s : string) : Prop :=
  exists m, NewMultiaddr X s = Ok m.

(** The criteria the caller specified hold of a listener: each option that
    was given denotes the corresponding field. *)
Definition criteriaHold (X : Externals) (req : CloseReq) (l : Listener) : Prop :=
  (sFound (clProtocol req) = true -> sValue (clProtocol req) = Protocol l) /\
  (sFound (clListen req) = true ->
     NewMultiaddr X (sValue (clListen req)) = Ok (ListenAddress l)) /\
  (sFound (clTarget req) = true ->
     NewMultiaddr X (sValue (clTarget req)) = Ok (TargetAddress l)).

(** ** A small instance of the imported functions

    Used to run the commands on concrete requests. Addresses are kept in
    their textual form; an address must be empty or begin with a slash,
    a peer address must begin with /ipfs/. *)
Module Sample.

Definition newMultiaddr (s : string) : result Multiaddr :=
  if String.eqb s ""%string || String.prefix "/"%string s then Ok s
  else Err "invalid multiaddr, must begin with /"%string.

Definition parseString (s : string) : option IPFSAddr * option error :=
  if String.prefix "/ipfs/"%string s then
    (Some {| ID := String.substring 6 (String.length s - 6) s;
             addrMultiaddr := s |}, None)
  else (None, Some "invalid ipfs address"%string).

Definition digit (a : ascii) : option N :=
  let n := N_of_ascii a in
  if ((48 <=? n) && (n <=? 57))%N then Some (n - 48)%N else None.

Fixpoint parseDigits (s : string) (acc : N) : option N :=
  match s with
  | EmptyString => Some acc
  | String a rest =>
    match digit a with
    | Some d => parseDigits rest (10 * acc + d)%N
    | None => None
    end
  end.

Definition parseUint (s : string) : result N :=
  match s with
  | EmptyString => Err "invalid syntax"%string
  | _ =>
    match parseDigits s 0%N with
    | Some n =>
      if (n <? 2 ^ 64)%N then Ok n else Err "value out of range"%string
    | None => Err "invalid syntax"%string
    end
  end.

Definition formatUint (n : N) : string := pretty n.

Definition externals : Externals :=
  {| NewMultiaddr := newMultiaddr;
     MultiaddrString := fun m => m;
     ParseString := parseString;
     ParseUint := parseUint;
     FormatUint := formatUint;
     ErrNotOnline := "this command must be run in online mode"%string;
     TempAddrTTL := 10000000000;
     releaseListener := fun _ => None;
     ForwardLocal := fun id proto bindAddr p =>
       ({| Listeners :=
             Listeners p ++ [mkListener proto bindAddr (String.append "/ipfs/" id)];
           Streams := Streams p |}, None);
     ForwardRemote := fun proto target p =>
       ({| Listeners := Listeners p ++ [mkListener proto "/ipfs/self"%string target];
           Streams := Streams p |}, None) |}.

Definition config : Config := {| Libp2pStreamMounting := true |}.

Definition l1 : Listener :=
  mkListener "/x/p1" "/ip4/127.0.0.1/tcp/10101" "/ipfs/QmPeer".
Definition l2 : Listener :=
  mkListener "/x/p2" "/ip4/127.0.0.1/tcp/10101" "/ipfs/QmPeer".
Definition l3 : Listener :=
  mkListener "/x/p1" "/ipfs/self" "/ip4/127.0.0.1/tcp/1234".

Definition s1 : Stream :=
  mkStream "/x/p1" "/ip4/127.0.0.1/tcp/10101" "/ipfs/QmPeer".
Definition s2 : Stream :=
  mkStream "/x/p2" "/ipfs/QmOther" "/ip4/127.0.0.1/tcp/1234".

Definition streams12 : gmap N Stream := <[1%N := s1]> (<[2%N := s2]> ∅).

Definition node (ls : list Listener) (ss : gmap N Stream) : IpfsNode :=
  {| RepoConfig := Ok config; OnlineMode := true;
     nodeP2P := {| Listeners := ls; Streams := ss |};
     nodePeerstore := [] |}.

Definition unset : StringOpt := mkStringOpt "" false None.
Definition given (s : string) : StringOpt := mkStringOpt s true None.
Definition flag (b : bool) : BoolOpt := mkBoolOpt b b None.

(** Contexts: three listeners; one listener and two streams; nothing. *)
Definition node3 : IpfsNode := node [l1; l2; l3] ∅.
Definition node12 : IpfsNode := node [l1] streams12.
Definition node0 : IpfsNode := node [] ∅.

(** A node that is online but has the stream mounting flag off. *)
Definition nodeOff : IpfsNode :=
  {| RepoConfig := Ok {| Libp2pStreamMounting := false |};
     OnlineMode := true;
     nodeP2P := {| Listeners := []; Streams := ∅ |};
     nodePeerstore := [] |}.

(** Requests. *)
Definition closeByProtocol (s : string) : CloseReq :=
  mkCloseReq (flag false) (given s) unset unset.
Definition closeEverything : CloseReq :=
  mkCloseReq (flag true) unset unset unset.
Definition closeBare : CloseReq :=
  mkCloseReq (flag false) unset unset unset.
Definition closeAllAndProtocol : CloseReq :=
  mkCloseReq (flag true) (given "/x/p1") unset unset.
Definition closeStream (id : string) : StreamCloseReq :=
  mkStreamCloseReq [id] (flag false).
Definition forwardReq (allow : bool) : ForwardReq :=
  mkForwardReq "myproto" "/ip4/127.0.0.1/tcp/4567" "/ipfs/QmPeer" (flag allow).
Definition forwardTo (target : string) : ForwardReq :=
  mkForwardReq "/x/myproto" "/ip4/127.0.0.1/tcp/4567" target (flag false).
Definition listenReq (allow : bool) : ListenReq :=
  mkListenReq "myproto" "/ip4/127.0.0.1/tcp/1234" (flag allow).

(** The two ways of ranging over [streams12]. *)
Definition order12 : list (N * Stream) := [(1%N, s1); (2%N, s2)].
Definition order21 : list (N * Stream) := [(2%N, s2); (1%N, s1)].

Definition refused : Response :=
  SetError "protocol name must be within '/x/' namespace" newResponse.

End Sample.

(** ** The text marshalers

    Each command that answers a value has a [cmds.Text] marshaler that
    turns it into text. Three things they use are not in this file: the
    helper [unwrapOutput] of package commands, which hands over the value
    the command set or fails; the tabwriter, which lays out the bytes
    written to it when it is flushed; and the decimal form [%d] of an
    int. The type assertions of [v] to a pointer to [P2PLsOutput], to a
    pointer to [P2PStreamsOutput] and to [int] panic on a value of another
    type. *)

Inductive Marshaled :=
| TypeAssertionPanic
| MarshalError (e : error)
| MarshalText (buf : string).

Definition tab : string := String "009"%char EmptyString.
Definition newline : string := String "010"%char EmptyString.


Definition streamHeader : string :=
  "ID" +:+ tab +:+ "Protocol" +:+ tab +:+ "Origin" +:+ tab +:+ "Target".


(** The loop of the stream ls marshaler. *)
Fixpoint writeStreams (headers : bool) (list : list P2PStreamInfoOutput)
    (w : string) : string :=
  match list with
  | [] => w
  | stream :: rest =>
    let w1 := if headers then w +:+ streamHeader +:+ newline else w in
    let w2 :=
      w1 +:+ HandlerID stream +:+ tab +:+ siProtocol stream +:+ tab
         +:+ OriginAddress stream +:+ tab +:+ TargetAddress_ stream
         +:+ newline in
    writeStreams headers rest w2
  end.

Section Marshalers.

(** [unwrapOutput], on what [res.Output()] gives. *)
Variable unwrapOutput : option Value -> result Value.

(** What a [tabwriter.NewWriter(buf, 1, 2, 1, ' ', 0)] leaves in [buf]
    once the given bytes were written to it and it was flushed. *)
Variable tabwriter : string -> string.

(** [%d] of an int. *)
Variable formatInt : Z -> string.


Definition p2pCloseCmd_Text (res : Response) : Marshaled :=
  match unwrapOutput (resOutput res) with
  | Err err => MarshalError err
  | Ok v =>
    match v with
    | VInt closed =>
      MarshalText ("Closed " +:+ formatInt closed +:+ " stream(s)" +:+ newline)
    | _ => TypeAssertionPanic
    end
  end.

Definition p2pStreamLsCmd_Text (res : Response) (headersOpt : BoolOpt)
    : Marshaled :=
  match unwrapOutput (resOutput res) with
  | Err err => MarshalError err
  | Ok v =>
    let headers := bValue headersOpt in
    match v with
    | VStreams list => MarshalText (tabwriter (writeStreams headers list ""))
    | _ => TypeAssertionPanic
    end
  end.

End Marshalers.

(** Stand-ins to run the marshalers: the value is handed over as it was
    set, the tabwriter leaves the bytes as they are, the count is printed
    in decimal. *)
Module SampleText.

Definition unwrapOutput (o : option Value) : result Value :=
  match o with
  | Some v => Ok v
  | None => Err "no output"%string
  end.

Definition tabwriter (w : string) : string := w.

Definition formatInt (n : Z) : string := pretty n.

(** A node where closing the second listener reports an error. *)
Definition externalsFailing : Externals :=
  {| NewMultiaddr := NewMultiaddr Sample.externals;
     MultiaddrString := MultiaddrString Sample.externals;
     ParseString := ParseString Sample.externals;
     ParseUint := ParseUint Sample.externals;
     FormatUint := FormatUint Sample.externals;
     ErrNotOnline := ErrNotOnline Sample.externals;
     TempAddrTTL := TempAddrTTL Sample.externals;
     releaseListener := fun l =>
       if decide (l = Sample.l3) then Some "address in use"%string else None;
     ForwardLocal := fun id proto bindAddr p =>
       (p, Some "listen failed"%string);
     ForwardRemote := ForwardRemote Sample.externals |}.

(** A node whose configuration cannot be read. *)
Definition nodeNoConfig : IpfsNode :=
  {| RepoConfig := Err "repo closed"%string; OnlineMode := false;
     nodeP2P := nodeP2P Sample.node12; nodePeerstore := [] |}.

End SampleText.

(** A context whose node exists, has a readable configuration with the
    stream mounting flag on, and is online. *)
Definition enabled (ctx : InvocContext) : Prop :=
  exists n c,
    ctx = Ok n /\ RepoConfig n = Ok c /\
    Libp2pStreamMounting c = true /\ OnlineMode n = true.

(** The option combinations the close command lets through: [--all]
    alone, or at least one criterion without [--all]. *)
Definition validOptions (req : CloseReq) : bool :=
  if bValue (clAll req)
  then negb (sFound (clProtocol req) || sFound (clListen req)
             || sFound (clTarget req))
  else sFound (clProtocol req) || sFound (clListen req)
       || sFound (clTarget req).


Definition streamLines (headers : bool) (stream : P2PStreamInfoOutput)
    : string :=
  (if headers then streamHeader +:+ newline else "") +:+
  HandlerID stream +:+ tab +:+ siProtocol stream +:+ tab +:+
  OriginAddress stream +:+ tab +:+ TargetAddress_ stream +:+ newline.

(** * Properties *)

(** ** The node check *)

Lemma p2pGetNode_Ok X ctx n : p2pGetNode X ctx = Ok n -> ctx = Ok n.
Proof.
  unfold p2pGetNode. destruct ctx as [m|e]; [|discriminate].
  destruct (RepoConfig m) as [c|e]; [|discriminate].
  destruct (negb (Libp2pStreamMounting c)); [discriminate|].
  destruct (negb (OnlineMode m)); [discriminate|].
  congruence.
Qed.

(** ** The loops of the close command *)

Section CloseLoops.

Variable X : Externals.

Lemma selectTodo_filter (mtch : Listener -> bool) (ls todo : list Listener) :
  selectTodo mtch ls todo = todo ++ filter (fun l => mtch l = true) ls.
Proof.
  revert todo. induction ls as [|l rest IH]; intros todo; simpl.
  - by rewrite app_nil_r.
  - rewrite filter_cons. destruct (decide (mtch l = true)) as [Hm|Hm].
    + rewrite Hm. simpl. rewrite IH. by rewrite <- app_assoc.
    + apply not_true_is_false in Hm. rewrite Hm. simpl. apply IH.
Qed.

Lemma filter_all {A} (P : A -> Prop) `{!forall x, Decision (P x)} (l : list A) :
  (forall x, x ∈ l -> P x) -> filter P l = l.
Proof.
  induction l as [|a l IH]; intros Hall; [done|].
  rewrite filter_cons, decide_True by (apply Hall; left).
  f_equal. apply IH. intros x Hx. apply Hall. by right.
Qed.

Lemma closeTodo_Listeners (todo : list Listener) (p : P2P) (errs : list string) :
  Listeners (closeTodo X todo p errs).1 = filter (fun x => x ∉ todo) (Listeners p).
Proof.
  revert p errs. induction todo as [|l rest IH]; intros p errs; simpl.
  - symmetry. apply filter_all. intros x _. apply not_elem_of_nil.
  - destruct (releaseListener X l); rewrite IH; simpl;
      rewrite list_filter_filter; apply list_filter_iff; intros x;
      rewrite not_elem_of_cons; tauto.
Qed.

Lemma closeTodo_Streams (todo : list Listener) (p : P2P) (errs : list string) :
  Streams (closeTodo X todo p errs).1 = Streams p.
Proof.
  revert p errs. induction todo as [|l rest IH]; intros p errs; simpl; [done|].
  destruct (releaseListener X l); by rewrite IH.
Qed.

Lemma closeTodo_errs (todo : list Listener) (p : P2P) (errs : list string) :
  (closeTodo X todo p errs).2 = errs ++ omap (releaseListener X) todo.
Proof.
  revert p errs. induction todo as [|l rest IH]; intros p errs; simpl.
  - by rewrite app_nil_r.
  - destruct (releaseListener X l); rewrite IH; simpl; [|done].
    by rewrite <- app_assoc.
Qed.

(** The closure decides the criteria, once the address options are parsed. *)
Lemma matchListener_spec (p l t : bool) (proto : protocol_ID)
    (listen target : Multiaddr) (listener : Listener) :
  matchListener false p l t proto listen target listener = true <->
  (p = true -> proto = Protocol listener) /\
  (l = true -> listen = ListenAddress listener) /\
  (t = true -> target = TargetAddress listener).
Proof.
  unfold matchListener, Equal.
  destruct (String.eqb_spec proto (Protocol listener)),
    (String.eqb_spec listen (ListenAddress listener)),
    (String.eqb_spec target (TargetAddress listener)),
    p, l, t; simpl; split; try done; intros (?&?&?); auto.
Qed.

(** The command once [p2pGetNode] succeeds, both addresses parse and the
    option checks let it through. *)
Lemma p2pCloseCmd_Run_selected (req : CloseReq) (ctx : InvocContext)
    (n : IpfsNode) (listen target : Multiaddr) :
  p2pGetNode X ctx = Ok n ->
  NewMultiaddr X (sValue (clListen req)) = Ok listen ->
  NewMultiaddr X (sValue (clTarget req)) = Ok target ->
  (if bValue (clAll req)
   then negb (sFound (clProtocol req) || sFound (clListen req)
              || sFound (clTarget req))
   else sFound (clProtocol req) || sFound (clListen req)
        || sFound (clTarget req)) = true ->
  let mtch := matchListener (bValue (clAll req)) (sFound (clProtocol req))
                (sFound (clListen req)) (sFound (clTarget req))
                (sValue (clProtocol req)) listen target in
  let todo := filter (fun l => mtch l = true) (Listeners (nodeP2P n)) in
  let errs := omap (releaseListener X) todo in
  p2pCloseCmd_Run X req ctx =
    (if negb (length errs =? 0)%nat
     then SetError (String.append "errors when closing streams: "
                      (Join errs "; ")) newResponse
     else SetOutput (VInt (Z.of_nat (length todo))) newResponse,
     Ok (withP2P n
           {| Listeners := filter (fun x => x ∉ todo) (Listeners (nodeP2P n));
              Streams := Streams (nodeP2P n) |})).
Proof.
  intros Hn Hl Ht Hopt mtch todo errs.
  unfold p2pCloseCmd_Run. rewrite Hn, Hl, Ht.
  replace (negb (bValue (clAll req) || sFound (clProtocol req)
                 || sFound (clListen req) || sFound (clTarget req)))
    with false
    by (destruct (bValue (clAll req)), (sFound (clProtocol req)),
          (sFound (clListen req)), (sFound (clTarget req)); done).
  replace (bValue (clAll req) && (sFound (clProtocol req)
             || sFound (clListen req) || sFound (clTarget req)))
    with false
    by (destruct (bValue (clAll req)), (sFound (clProtocol req)),
          (sFound (clListen req)), (sFound (clTarget req)); done).
  cbv zeta. rewrite selectTodo_filter. simpl app. fold mtch. fold todo.
  pose proof (closeTodo_Listeners todo (nodeP2P n) []) as HL.
  pose proof (closeTodo_Streams todo (nodeP2P n) []) as HS.
  pose proof (closeTodo_errs todo (nodeP2P n) []) as HE.
  destruct (closeTodo X todo (nodeP2P n) []) as [[ls' ss'] errs'].
  simpl in HL, HS, HE. subst ls' ss' errs'. fold errs.
  destruct (length errs =? 0)%nat; reflexivity.
Qed.

End CloseLoops.

(** ** Closing listeners *)

(** C1: a close-listeners call with [--all] unset and at least one of the
    protocol, listen-address and target-address criteria closes a
    registered listener if and only if every criterion that was given
    equals the corresponding field of that listener; criteria that were
    not given do not constrain the match, listeners failing a given
    criterion stay registered, and nothing else is touched. The call is
    one for which [p2pGetNode] succeeds, and the address options not given
    (the empty default) parse. *)
Theorem close_listeners_by_criteria (X : Externals) (req : CloseReq)
    (ctx : InvocContext) (n : IpfsNode) :
  p2pGetNode X ctx = Ok n ->
  bValue (clAll req) = false ->
  sFound (clProtocol req) || sFound (clListen req) || sFound (clTarget req)
    = true ->
  (sFound (clListen req) = false -> parses X (sValue (clListen req))) ->
  (sFound (clTarget req) = false -> parses X (sValue (clTarget req))) ->
  let after := (p2pCloseCmd_Run X req ctx).2 in
  registeredStreams after = registeredStreams ctx /\
  forall l : Listener,
    (l ∈ registeredListeners after -> l ∈ registeredListeners ctx) /\
    (l ∈ registeredListeners ctx ->
       (l ∉ registeredListeners after <-> criteriaHold X req l) /\
       (l ∈ registeredListeners after <-> ~ criteriaHold X req l)).
Proof.
  intros Hn Hall Hsome HL HT after.
  pose proof (p2pGetNode_Ok _ _ _ Hn) as ->.
  assert (Hunchanged : after = Ok n ->
            (forall l, ~ criteriaHold X req l) ->
            registeredStreams after = registeredStreams (Ok n) /\
            forall l : Listener,
              (l ∈ registeredListeners after -> l ∈ registeredListeners (Ok n)) /\
              (l ∈ registeredListeners (Ok n) ->
                 (l ∉ registeredListeners after <-> criteriaHold X req l) /\
                 (l ∈ registeredListeners after <-> ~ criteriaHold X req l))).
  { intros -> Hno. split; [done|]. intros l. specialize (Hno l). tauto. }
  destruct (NewMultiaddr X (sValue (clListen req))) as [listen|e] eqn:El.
  2:{ apply Hunchanged.
      - subst after. unfold p2pCloseCmd_Run. by rewrite Hn, El.
      - intros l (_ & Hc & _).
        destruct (sFound (clListen req)) eqn:Ef.
        + specialize (Hc eq_refl). congruence.
        + destruct (HL eq_refl). congruence. }
  destruct (NewMultiaddr X (sValue (clTarget req))) as [target|e] eqn:Et.
  2:{ apply Hunchanged.
      - subst after. unfold p2pCloseCmd_Run. by rewrite Hn, El, Et.
      - intros l (_ & _ & Hc).
        destruct (sFound (clTarget req)) eqn:Ef.
        + specialize (Hc eq_refl). congruence.
        + destruct (HT eq_refl). congruence. }
  clear Hunchanged. subst after.
  rewrite (p2pCloseCmd_Run_selected X req (Ok n) n listen target Hn El Et)
    by (by rewrite Hall).
  rewrite Hall.
  cbn [snd registeredListeners registeredStreams withP2P nodeP2P Listeners
       Streams].
  split; [done|]. intros l.
  set (mtch := matchListener false _ _ _ _ listen target).
  assert (Hm : mtch l = true <-> criteriaHold X req l).
  { unfold mtch. rewrite matchListener_spec. unfold criteriaHold.
    rewrite El, Et.
    split; intros (H1 & H2 & H3); (split; [exact H1 | split]); intros Hf;
      first [ solve [f_equal; auto]
            | specialize (H2 Hf); congruence
            | specialize (H3 Hf); congruence ]. }
  rewrite !list_elem_of_filter. split; [tauto|]. intros Hin.
  destruct (mtch l) eqn:Eml.
  - assert (criteriaHold X req l) by (by apply Hm). intuition auto.
  - assert (~ criteriaHold X req l) by (rewrite <- Hm; congruence).
    intuition congruence.
Qed.

(** At three listeners of which two carry the protocol asked for. *)
Lemma close_listeners_by_criteria_witness :
  registeredListeners
    (p2pCloseCmd_Run Sample.externals (Sample.closeByProtocol "/x/p1")
       (Ok Sample.node3)).2 = [Sample.l2] /\
  (Sample.l1 ∉ registeredListeners
     (p2pCloseCmd_Run Sample.externals (Sample.closeByProtocol "/x/p1")
        (Ok Sample.node3)).2 <->
   criteriaHold Sample.externals (Sample.closeByProtocol "/x/p1") Sample.l1).
Proof.
  split; [reflexivity|].
  apply (close_listeners_by_criteria Sample.externals
           (Sample.closeByProtocol "/x/p1") (Ok Sample.node3) Sample.node3).
  - reflexivity.
  - reflexivity.
  - reflexivity.
  - intros _. exists ""%string. reflexivity.
  - intros _. exists ""%string. reflexivity.
  - left.
Defined.

Lemma p2pGetNode_withP2P X n p :
  p2pGetNode X (Ok n) = Ok n ->
  p2pGetNode X (Ok (withP2P n p)) = Ok (withP2P n p).
Proof.
  unfold p2pGetNode, withP2P. simpl.
  destruct (RepoConfig n) as [c|e]; [|discriminate].
  destruct (negb (Libp2pStreamMounting c)); [discriminate|].
  by destruct (negb (OnlineMode n)).
Qed.

Lemma filter_not_in_self (ls : list Listener) :
  filter (fun x => x ∉ ls) ls = [].
Proof.
  apply elem_of_nil_inv. intros x. rewrite list_elem_of_filter. tauto.
Qed.

Lemma omap_nil_iff {A B} (f : A -> option B) (l : list A) :
  omap f l = [] <-> forall x, x ∈ l -> f x = None.
Proof.
  induction l as [|a l IH]; simpl.
  - split; [|done]. intros _ x Hx. by apply elem_of_nil in Hx.
  - destruct (f a) eqn:Ea.
    + split; [done|]. intros Hall. specialize (Hall a (list_elem_of_here _ _)).
      congruence.
    + rewrite IH. split.
      * intros Hall x Hx. apply elem_of_cons in Hx as [->|Hx]; auto.
      * intros Hall x Hx. apply Hall. by right.
Qed.

(** C2: a close-listeners call with [--all] and no other criterion closes
    every registered listener: the listener registry is empty afterwards
    and a following list-listeners returns the empty sequence; a count
    that is returned is the number of listeners registered before the
    call, and a count is returned exactly when no close reported an error
    (otherwise the collected errors are returned). *)
Theorem close_listeners_all (X : Externals) (req : CloseReq)
    (ctx : InvocContext) (n : IpfsNode) :
  p2pGetNode X ctx = Ok n ->
  bValue (clAll req) = true ->
  sFound (clProtocol req) = false ->
  sFound (clListen req) = false ->
  sFound (clTarget req) = false ->
  parses X (sValue (clListen req)) ->
  parses X (sValue (clTarget req)) ->
  let res := (p2pCloseCmd_Run X req ctx).1 in
  let after := (p2pCloseCmd_Run X req ctx).2 in
  let before := length (registeredListeners ctx) in
  registeredListeners after = [] /\
  registeredStreams after = registeredStreams ctx /\
  (forall k, resOutput res = Some (VInt k) -> k = Z.of_nat before) /\
  ((forall l, l ∈ registeredListeners ctx -> releaseListener X l = None) <->
   res = SetOutput (VInt (Z.of_nat before)) newResponse) /\
  p2pLsCmd_Run X after = (SetOutput (VLs []) newResponse, after).
Proof.
  intros Hn Hall Hp Hl Ht [listen El] [target Et] res after before.
  pose proof (p2pGetNode_Ok _ _ _ Hn) as ->.
  subst res after before.
  rewrite (p2pCloseCmd_Run_selected X req (Ok n) n listen target Hn El Et)
    by (by rewrite Hall, Hp, Hl, Ht).
  rewrite Hall.
  change (matchListener true _ _ _ _ _ _) with (fun _ : Listener => true).
  rewrite (filter_all (fun _ : Listener => true = true)) by done.
  rewrite filter_not_in_self.
  cbn [fst snd registeredListeners registeredStreams withP2P nodeP2P Listeners
       Streams].
  split; [done|]. split; [done|].
  set (errs := omap (releaseListener X) (Listeners (nodeP2P n))).
  rewrite <- (omap_nil_iff (releaseListener X)). fold errs.
  repeat split.
  - destruct errs; simpl; intros k Hk; [congruence|discriminate].
  - by intros ->.
  - destruct errs; [done|]. simpl. discriminate.
  - unfold p2pLsCmd_Run. by rewrite (p2pGetNode_withP2P _ _ _ Hn).
Qed.

(** Closing all three sample listeners. *)
Lemma close_listeners_all_witness :
  registeredListeners
    (p2pCloseCmd_Run Sample.externals Sample.closeEverything
       (Ok Sample.node3)).2 = [] /\
  (p2pCloseCmd_Run Sample.externals Sample.closeEverything
     (Ok Sample.node3)).1 = SetOutput (VInt 3) newResponse /\
  p2pLsCmd_Run Sample.externals
    (p2pCloseCmd_Run Sample.externals Sample.closeEverything
       (Ok Sample.node3)).2 =
    (SetOutput (VLs []) newResponse,
     (p2pCloseCmd_Run Sample.externals Sample.closeEverything
        (Ok Sample.node3)).2).
Proof.
  destruct (close_listeners_all Sample.externals Sample.closeEverything
              (Ok Sample.node3) Sample.node3 eq_refl eq_refl eq_refl eq_refl
              eq_refl (ex_intro _ ""%string eq_refl)
              (ex_intro _ ""%string eq_refl))
    as (Hempty & _ & _ & Hcount & Hls).
  split; [exact Hempty|]. split; [|exact Hls].
  apply Hcount. reflexivity.
Defined.

(** C3: a close-listeners call without [--all] and with none of the three
    criteria fails and leaves both registries as they were; the error is
    the missing-options one as soon as [p2pGetNode] succeeds and the
    address options (the empty default) parse. *)
Theorem close_listeners_no_options (X : Externals) (req : CloseReq)
    (ctx : InvocContext) :
  bValue (clAll req) = false ->
  sFound (clProtocol req) = false ->
  sFound (clListen req) = false ->
  sFound (clTarget req) = false ->
  (p2pCloseCmd_Run X req ctx).2 = ctx /\
  is_Some (resError (p2pCloseCmd_Run X req ctx).1) /\
  (forall n, p2pGetNode X ctx = Ok n ->
     parses X (sValue (clListen req)) ->
     parses X (sValue (clTarget req)) ->
     (p2pCloseCmd_Run X req ctx).1 =
       SetError "no matching options given" newResponse).
Proof.
  intros Hall Hp Hl Ht. unfold p2pCloseCmd_Run.
  rewrite Hall, Hp, Hl, Ht. simpl.
  destruct (p2pGetNode X ctx) as [n|e]; simpl.
  2:{ split; [done|]. split; [by eexists|discriminate]. }
  destruct (NewMultiaddr X (sValue (clListen req))) as [listen|e] eqn:El; simpl.
  2:{ split; [done|]. split; [by eexists|]. intros ? _ [? El'] _. congruence. }
  destruct (NewMultiaddr X (sValue (clTarget req))) as [target|e] eqn:Et; simpl.
  2:{ split; [done|]. split; [by eexists|]. intros ? _ _ [? Et']. congruence. }
  split; [done|]. split; [by eexists|done].
Qed.

(** A bare close on a node with three listeners. *)
Lemma close_listeners_no_options_witness :
  (p2pCloseCmd_Run Sample.externals Sample.closeBare (Ok Sample.node3)).2 =
    Ok Sample.node3 /\
  (p2pCloseCmd_Run Sample.externals Sample.closeBare (Ok Sample.node3)).1 =
    SetError "no matching options given" newResponse.
Proof.
  destruct (close_listeners_no_options Sample.externals Sample.closeBare
              (Ok Sample.node3) eq_refl eq_refl eq_refl eq_refl)
    as (Hctx & _ & Herr).
  split; [exact Hctx|].
  apply (Herr Sample.node3).
  - reflexivity.
  - exists ""%string. reflexivity.
  - exists ""%string. reflexivity.
Defined.

(** C4: a close-listeners call that combines [--all] with any of the three
    criteria fails and leaves both registries as they were; the error is
    the conflicting-options one as soon as [p2pGetNode] succeeds and
    the address options parse. *)
Theorem close_listeners_conflict (X : Externals) (req : CloseReq)
    (ctx : InvocContext) :
  bValue (clAll req) = true ->
  sFound (clProtocol req) || sFound (clListen req) || sFound (clTarget req)
    = true ->
  (p2pCloseCmd_Run X req ctx).2 = ctx /\
  is_Some (resError (p2pCloseCmd_Run X req ctx).1) /\
  (forall n, p2pGetNode X ctx = Ok n ->
     parses X (sValue (clListen req)) ->
     parses X (sValue (clTarget req)) ->
     (p2pCloseCmd_Run X req ctx).1 =
       SetError "can't combine --all with other matching options" newResponse).
Proof.
  intros Hall Hsome. unfold p2pCloseCmd_Run.
  rewrite Hall. simpl. rewrite Hsome.
  destruct (p2pGetNode X ctx) as [n|e]; simpl.
  2:{ split; [done|]. split; [by eexists|discriminate]. }
  destruct (NewMultiaddr X (sValue (clListen req))) as [listen|e] eqn:El; simpl.
  2:{ split; [done|]. split; [by eexists|]. intros ? _ [? El'] _. congruence. }
  destruct (NewMultiaddr X (sValue (clTarget req))) as [target|e] eqn:Et; simpl.
  2:{ split; [done|]. split; [by eexists|]. intros ? _ _ [? Et']. congruence. }
  split; [done|]. split; [by eexists|done].
Qed.

(** [--all] together with a protocol. *)
Lemma close_listeners_conflict_witness :
  (p2pCloseCmd_Run Sample.externals Sample.closeAllAndProtocol
     (Ok Sample.node3)).2 = Ok Sample.node3 /\
  (p2pCloseCmd_Run Sample.externals Sample.closeAllAndProtocol
     (Ok Sample.node3)).1 =
    SetError "can't combine --all with other matching options" newResponse.
Proof.
  destruct (close_listeners_conflict Sample.externals
              Sample.closeAllAndProtocol (Ok Sample.node3) eq_refl eq_refl)
    as (Hctx & _ & Herr).
  split; [exact Hctx|].
  apply (Herr Sample.node3).
  - reflexivity.
  - exists ""%string. reflexivity.
  - exists ""%string. reflexivity.
Defined.

(** ** Creating forwards *)

(** C5: a create-local-forward (forward) or create-remote-forward (listen)
    call whose protocol name does not start with /x/ and that does not set
    the allow-custom-protocol flag fails and leaves the node as it was, so
    no listener is registered; the error is the namespace one as soon as
    [p2pGetNode] succeeds and its endpoints and options are read
    without error. With the flag set the prefix is not looked at: the call
    goes on to [forwardLocal] or [forwardRemote] and answers what that
    gives. *)
Theorem forward_protocol_namespace (X : Externals) (ctx : InvocContext) :
  (forall req : ForwardReq,
     HasPrefix (fwProtocol req) "/x/" = false ->
     (bValue (fwAllowCustom req) = false ->
        exists res, p2pForwardCmd_Run X req ctx = Returns (res, ctx) /\
                    is_Some (resError res)) /\
     (forall n listen target,
        p2pGetNode X ctx = Ok n ->
        NewMultiaddr X (fwListen req) = Ok listen ->
        ParseString X (fwTarget req) = (target, None) ->
        bErr (fwAllowCustom req) = None ->
        p2pForwardCmd_Run X req ctx =
          if bValue (fwAllowCustom req)
          then forwardOutcome n
                 (forwardLocal X (nodeP2P n) (nodePeerstore n)
                    (fwProtocol req) listen target)
          else Returns
                 (SetError "protocol name must be within '/x/' namespace"
                    newResponse, ctx))) /\
  (forall req : ListenReq,
     HasPrefix (lnProtocol req) "/x/" = false ->
     (bValue (lnAllowCustom req) = false ->
        exists res, p2pListenCmd_Run X req ctx = (res, ctx) /\
                    is_Some (resError res)) /\
     (forall n target,
        p2pGetNode X ctx = Ok n ->
        NewMultiaddr X (lnTarget req) = Ok target ->
        bErr (lnAllowCustom req) = None ->
        p2pListenCmd_Run X req ctx =
          if bValue (lnAllowCustom req)
          then listenOutcome n
                 (forwardRemote X (nodeP2P n) (lnProtocol req) target)
          else (SetError "protocol name must be within '/x/' namespace"
                  newResponse, ctx))).
Proof.
  split; intros req Hpre; (split; [intros Hallow|]).
  - unfold p2pForwardCmd_Run.
    destruct (p2pGetNode X ctx) as [n|e]; [|by repeat eexists].
    destruct (NewMultiaddr X (fwListen req)); [|by repeat eexists].
    destruct (ParseString X (fwTarget req)) as [target [e|]];
      [by repeat eexists|].
    destruct (bErr (fwAllowCustom req)); [by repeat eexists|].
    unfold P2PProtoPrefix. rewrite Hallow, Hpre. simpl. by repeat eexists.
  - intros n listen target Hn El Et Hb. unfold p2pForwardCmd_Run.
    rewrite Hn, El, Et, Hb. unfold P2PProtoPrefix. rewrite Hpre.
    by destruct (bValue (fwAllowCustom req)).
  - unfold p2pListenCmd_Run.
    destruct (p2pGetNode X ctx) as [n|e]; [|by repeat eexists].
    destruct (NewMultiaddr X (lnTarget req)); [|by repeat eexists].
    destruct (bErr (lnAllowCustom req)); [by repeat eexists|].
    unfold P2PProtoPrefix. rewrite Hallow, Hpre. simpl. by repeat eexists.
  - intros n target Hn Et Hb. unfold p2pListenCmd_Run.
    rewrite Hn, Et, Hb. unfold P2PProtoPrefix. rewrite Hpre.
    by destruct (bValue (lnAllowCustom req)).
Qed.

(** A protocol outside /x/, refused without the flag and registered with
    it, for both commands. *)
Lemma forward_protocol_namespace_witness :
  p2pForwardCmd_Run Sample.externals (Sample.forwardReq false)
    (Ok Sample.node0) = Returns (Sample.refused, Ok Sample.node0) /\
  p2pForwardCmd_Run Sample.externals (Sample.forwardReq true)
    (Ok Sample.node0) =
    Returns (SetOutput VNil newResponse,
             Ok {| RepoConfig := Ok Sample.config; OnlineMode := true;
                   nodeP2P :=
                     {| Listeners :=
                          [mkListener "myproto" "/ip4/127.0.0.1/tcp/4567"
                             "/ipfs/QmPeer"];
                        Streams := ∅ |};
                   nodePeerstore :=
                     [("QmPeer"%string, "/ipfs/QmPeer"%string, 10000000000)] |}) /\
  p2pListenCmd_Run Sample.externals (Sample.listenReq false)
    (Ok Sample.node0) = (Sample.refused, Ok Sample.node0) /\
  p2pListenCmd_Run Sample.externals (Sample.listenReq true)
    (Ok Sample.node0) =
    (SetOutput VNil newResponse,
     Ok (Sample.node [mkListener "myproto" "/ipfs/self"
                        "/ip4/127.0.0.1/tcp/1234"] ∅)).
Proof.
  destruct (forward_protocol_namespace Sample.externals (Ok Sample.node0))
    as [Hfw Hln].
  pose (a := {| ID := "QmPeer"%string; addrMultiaddr := "/ipfs/QmPeer"%string |}).
  split; [|split; [|split]].
  - apply (proj2 (Hfw (Sample.forwardReq false) eq_refl) Sample.node0
             "/ip4/127.0.0.1/tcp/4567"%string (Some a));
      reflexivity.
  - rewrite (proj2 (Hfw (Sample.forwardReq true) eq_refl) Sample.node0
               "/ip4/127.0.0.1/tcp/4567"%string (Some a));
      reflexivity.
  - apply (proj2 (Hln (Sample.listenReq false) eq_refl) Sample.node0
             "/ip4/127.0.0.1/tcp/1234"%string);
      reflexivity.
  - rewrite (proj2 (Hln (Sample.listenReq true) eq_refl) Sample.node0
               "/ip4/127.0.0.1/tcp/1234"%string);
      reflexivity.
Defined.

(** ** The node check in front of every command *)

(** When [p2pGetNode] fails, every command answers its error and the
    context stays as it was. *)
Lemma getNode_error_every_command (X : Externals) (ctx : InvocContext) (e : error) :
  p2pGetNode X ctx = Err e ->
  (forall req, p2pForwardCmd_Run X req ctx = Returns (SetError e newResponse, ctx)) /\
  (forall req, p2pListenCmd_Run X req ctx = (SetError e newResponse, ctx)) /\
  p2pLsCmd_Run X ctx = (SetError e newResponse, ctx) /\
  (forall req, p2pCloseCmd_Run X req ctx = (SetError e newResponse, ctx)) /\
  (forall order, p2pStreamLsCmd_Run X order ctx = (SetError e newResponse, ctx)) /\
  (forall order req,
     p2pStreamCloseCmd_Run X order req ctx =
       (SetError e (SetOutput VNil newResponse), ctx, noTrace)).
Proof.
  intros He.
  unfold p2pForwardCmd_Run, p2pListenCmd_Run, p2pLsCmd_Run, p2pCloseCmd_Run,
    p2pStreamLsCmd_Run, p2pStreamCloseCmd_Run.
  rewrite He. repeat split.
Qed.

(** C9: with the Libp2pStreamMounting flag off, or with the node not
    online, each of forward, listen, ls, close, stream ls and stream close
    answers an error (the not-enabled one when the flag is off, else the
    not-online one) and leaves the context, hence both registries, as it
    was. The answer is the same whatever the registries hold and whatever
    order the stream map would be ranged in. *)
Theorem getNode_blocks_every_command (X : Externals) (n : IpfsNode)
    (config : Config) :
  RepoConfig n = Ok config ->
  Libp2pStreamMounting config = false \/ OnlineMode n = false ->
  let e := if Libp2pStreamMounting config then ErrNotOnline X
           else "libp2p stream mounting not enabled"%string in
  forall p : P2P,
    let ctx := Ok (withP2P n p) in
    (forall req, p2pForwardCmd_Run X req ctx = Returns (SetError e newResponse, ctx)) /\
    (forall req, p2pListenCmd_Run X req ctx = (SetError e newResponse, ctx)) /\
    p2pLsCmd_Run X ctx = (SetError e newResponse, ctx) /\
    (forall req, p2pCloseCmd_Run X req ctx = (SetError e newResponse, ctx)) /\
    (forall order, p2pStreamLsCmd_Run X order ctx = (SetError e newResponse, ctx)) /\
    (forall order req,
       p2pStreamCloseCmd_Run X order req ctx =
         (SetError e (SetOutput VNil newResponse), ctx, noTrace)).
Proof.
  intros Hc Hoff e p ctx. apply getNode_error_every_command.
  subst ctx e. unfold p2pGetNode, withP2P. cbn [RepoConfig OnlineMode].
  rewrite Hc.
  destruct (Libp2pStreamMounting config); simpl; [|done].
  destruct Hoff as [Hf | Ho]; [discriminate | by rewrite Ho].
Qed.

(** A node that is online but has the flag off, asked to close
    everything. *)
Lemma getNode_blocks_every_command_witness :
  p2pCloseCmd_Run Sample.externals Sample.closeEverything
    (Ok (withP2P Sample.nodeOff (nodeP2P Sample.node12))) =
    (SetError "libp2p stream mounting not enabled" newResponse,
     Ok (withP2P Sample.nodeOff (nodeP2P Sample.node12))).
Proof.
  apply (getNode_blocks_every_command Sample.externals Sample.nodeOff
           {| Libp2pStreamMounting := false |} eq_refl (or_introl eq_refl)
           (nodeP2P Sample.node12)).
Defined.

(** ** forwardLocal and the nil address *)

(** C10: [forwardLocal] records the address only when [addr] is not nil
    but calls [addr.ID()] in any case: on a nil [addr] it panics, on any
    other it returns. The forward command never panics, given that
    [ipfsaddr.ParseString] gives an address whenever it gives no error:
    an error of the parse is answered before [forwardLocal] is reached,
    with the node left as it was. Without that, a nil address that comes
    with a nil error does reach the call and panics. *)
Theorem forwardLocal_nil_address (X : Externals) :
  (forall p ps proto bindAddr,
     forwardLocal X p ps proto bindAddr None = NilDereference) /\
  (forall p ps proto bindAddr a,
     forwardLocal X p ps proto bindAddr (Some a) =
       Returns ((ForwardLocal X (ID a) proto bindAddr p).1,
                ps ++ [(ID a, addrMultiaddr a, TempAddrTTL X)],
                (ForwardLocal X (ID a) proto bindAddr p).2)) /\
  (forall req ctx,
     ((ParseString X (fwTarget req)).2 = None ->
      (ParseString X (fwTarget req)).1 <> None) ->
     p2pForwardCmd_Run X req ctx <> NilDereference) /\
  (forall req ctx e,
     (ParseString X (fwTarget req)).2 = Some e ->
     exists res, p2pForwardCmd_Run X req ctx = Returns (res, ctx) /\
                 is_Some (resError res)) /\
  (forall req ctx n listen,
     p2pGetNode X ctx = Ok n ->
     NewMultiaddr X (fwListen req) = Ok listen ->
     ParseString X (fwTarget req) = (None, None) ->
     bErr (fwAllowCustom req) = None ->
     bValue (fwAllowCustom req) || HasPrefix (fwProtocol req) P2PProtoPrefix
       = true ->
     p2pForwardCmd_Run X req ctx = NilDereference).
Proof.
  split; [done|]. split.
  { intros p ps proto bindAddr a. unfold forwardLocal.
    by destruct (ForwardLocal X (ID a) proto bindAddr p). }
  split.
  { intros req ctx Hparse. unfold p2pForwardCmd_Run.
    destruct (p2pGetNode X ctx) as [n|e]; [|done].
    destruct (NewMultiaddr X (fwListen req)); [|done].
    destruct (ParseString X (fwTarget req)) as [target [e|]]; [done|].
    destruct (bErr (fwAllowCustom req)); [done|].
    destruct (negb _ && negb _); [done|].
    destruct target as [peer|]; [|by destruct Hparse].
    unfold forwardLocal, forwardOutcome.
    by destruct (ForwardLocal X (ID peer) _ _ _) as [p' [err|]]. }
  split.
  { intros req ctx e He. unfold p2pForwardCmd_Run.
    destruct (p2pGetNode X ctx) as [n|e']; [|by repeat eexists].
    destruct (NewMultiaddr X (fwListen req)); [|by repeat eexists].
    destruct (ParseString X (fwTarget req)) as [target perr].
    simpl in He. subst perr. by repeat eexists. }
  intros req ctx n listen Hn El Et Hb Hpass. unfold p2pForwardCmd_Run.
  rewrite Hn, El, Et, Hb.
  destruct (bValue (fwAllowCustom req)); simpl in *; [done|].
  by rewrite Hpass.
Qed.

(** The sample parser gives an address or an error, never neither. *)
Lemma forwardLocal_nil_address_witness :
  p2pForwardCmd_Run Sample.externals (Sample.forwardTo "/ipfs/QmPeer")
    (Ok Sample.node0) <> NilDereference /\
  exists res,
    p2pForwardCmd_Run Sample.externals (Sample.forwardTo "QmPeer")
      (Ok Sample.node0) = Returns (res, Ok Sample.node0) /\
    is_Some (resError res).
Proof.
  destruct (forwardLocal_nil_address Sample.externals)
    as (_ & _ & Hsafe & Herr & _).
  split.
  - apply Hsafe. simpl. discriminate.
  - apply (Herr (Sample.forwardTo "QmPeer") (Ok Sample.node0)
             "invalid ipfs address"%string).
    reflexivity.
Defined.

(** ** Ranging over the stream map *)

Lemma rangeOrder_elem (m : gmap N Stream) (order : list (N * Stream)) id s :
  rangeOrder m order -> ((id, s) ∈ order <-> m !! id = Some s).
Proof.
  unfold rangeOrder. intros Hperm. rewrite Hperm. apply elem_of_map_to_list.
Qed.

Lemma rangeOrder_NoDup (m : gmap N Stream) (order : list (N * Stream)) :
  rangeOrder m order -> NoDup (order.*1).
Proof.
  unfold rangeOrder. intros Hperm. rewrite Hperm. apply NoDup_fst_map_to_list.
Qed.

Lemma rangeOrder_unregistered (m : gmap N Stream) (order : list (N * Stream)) id :
  rangeOrder m order -> m !! id = None -> id ∉ (order.*1).
Proof.
  intros Hr Hnone Hin. apply list_elem_of_fmap in Hin as ([id' s] & -> & Hin).
  apply (rangeOrder_elem _ _ _ _ Hr) in Hin. simpl in Hnone. congruence.
Qed.

(** The first (and only) place of a registered handle in a range. *)
Lemma rangeOrder_registered (m : gmap N Stream) (order : list (N * Stream)) id s :
  rangeOrder m order -> m !! id = Some s ->
  exists pre post, order = pre ++ (id, s) :: post /\ id ∉ (pre.*1).
Proof.
  intros Hr Hs. pose proof (rangeOrder_NoDup _ _ Hr) as Hnd.
  apply (rangeOrder_elem _ _ _ _ Hr) in Hs.
  apply list_elem_of_split in Hs as (pre & post & ->).
  exists pre, post. split; [done|].
  rewrite fmap_app, fmap_cons in Hnd. apply NoDup_app in Hnd as (_ & Hd & _).
  intros Hin. apply (Hd _ Hin). simpl. left.
Qed.

(** ** The loop of the stream close command, for one handle *)

Lemma resetLoop_miss (handlerID : N) (order : list (N * Stream)) (p : P2P)
    (tr : Trace) :
  handlerID ∉ (order.*1) ->
  resetLoop false handlerID order p tr =
    (p, {| trResets := trResets tr;
           trVisited := (length order + trVisited tr)%nat |}).
Proof.
  revert tr. induction order as [|[id s] rest IH]; intros tr Hnot; simpl.
  - by destruct tr.
  - rewrite fmap_cons, not_elem_of_cons in Hnot. destruct Hnot as [Hne Hnot].
    simpl in Hne. apply N.eqb_neq in Hne. rewrite Hne. simpl.
    rewrite (IH _ Hnot). simpl. do 2 f_equal. lia.
Qed.

Lemma resetLoop_hit (handlerID : N) (pre post : list (N * Stream)) (s : Stream)
    (p : P2P) (tr : Trace) :
  handlerID ∉ (pre.*1) ->
  resetLoop false handlerID (pre ++ (handlerID, s) :: post) p tr =
    (Reset handlerID p,
     {| trResets := trResets tr ++ [handlerID];
        trVisited := S (length pre + trVisited tr) |}).
Proof.
  revert tr. induction pre as [|[id s'] rest IH]; intros tr Hnot; simpl.
  - by rewrite N.eqb_refl.
  - rewrite fmap_cons, not_elem_of_cons in Hnot. destruct Hnot as [Hne Hnot].
    simpl in Hne. apply N.eqb_neq in Hne. rewrite Hne. simpl.
    rewrite (IH _ Hnot). simpl. do 3 f_equal. lia.
Qed.

Lemma p2pStreamLsCmd_Run_Ok (X : Externals) (order : list (N * Stream))
    (ctx : InvocContext) (n : IpfsNode) :
  p2pGetNode X ctx = Ok n ->
  p2pStreamLsCmd_Run X order ctx =
    (SetOutput (VStreams (map (streamInfo X) order)) newResponse, ctx).
Proof. intros Hn. unfold p2pStreamLsCmd_Run. by rewrite Hn. Qed.

Lemma withP2P_same (n : IpfsNode) :
  withP2P n {| Listeners := Listeners (nodeP2P n);
               Streams := Streams (nodeP2P n) |} = n.
Proof. by destruct n as [? ? [? ?] ?]. Qed.

(** ** Closing one stream *)

(** C6: a close-stream call that names a handle (no [--all]) resets the
    stream registered under that handle and no other: [Reset] is called
    on that handle once if a stream is registered under it and on nothing
    otherwise; every other stream stays registered, with the same data,
    and is listed by a following list-streams; the listeners are left
    alone; and the loop looks at no entry after the one whose handle it
    was given. The call is one for which [p2pGetNode] succeeds and whose id parses;
    the loop ranges over the stream map in any order. *)
Theorem close_stream_by_handle (X : Externals) (order : list (N * Stream))
    (req : StreamCloseReq) (ctx : InvocContext) (n : IpfsNode)
    (arg : string) (rest : list string) (H : N) :
  p2pGetNode X ctx = Ok n ->
  bValue (scAll req) = false ->
  scArguments req = arg :: rest ->
  ParseUint X arg = Ok H ->
  rangeOrder (registeredStreams ctx) order ->
  let res := (p2pStreamCloseCmd_Run X order req ctx).1.1 in
  let after := (p2pStreamCloseCmd_Run X order req ctx).1.2 in
  let tr := (p2pStreamCloseCmd_Run X order req ctx).2 in
  res = SetOutput VNil newResponse /\
  registeredListeners after = registeredListeners ctx /\
  registeredStreams after = delete H (registeredStreams ctx) /\
  trResets tr = match registeredStreams ctx !! H with
                | Some _ => [H]
                | None => []
                end /\
  (forall id s, id <> H ->
     registeredStreams ctx !! id = Some s ->
     registeredStreams after !! id = Some s /\
     forall order', rangeOrder (registeredStreams after) order' ->
       exists out,
         (p2pStreamLsCmd_Run X order' after).1 =
           SetOutput (VStreams out) newResponse /\
         streamInfo X (id, s) ∈ out) /\
  (forall s, registeredStreams ctx !! H = Some s ->
     exists pre post,
       order = pre ++ (H, s) :: post /\ (H ∉ pre.*1) /\
       trVisited tr = S (length pre)).
Proof.
  intros Hn Hall Harg Hparse Hrange res after tr.
  pose proof (p2pGetNode_Ok _ _ _ Hn) as ->. simpl in Hrange.
  assert (Hrun : exists visited,
            p2pStreamCloseCmd_Run X order req (Ok n) =
              (SetOutput VNil newResponse, Ok (withP2P n (Reset H (nodeP2P n))),
               {| trResets := match Streams (nodeP2P n) !! H with
                              | Some _ => [H]
                              | None => []
                              end;
                  trVisited := visited |}) /\
            forall s, Streams (nodeP2P n) !! H = Some s ->
              exists pre post,
                order = pre ++ (H, s) :: post /\ (H ∉ pre.*1) /\
                visited = S (length pre)).
  { unfold p2pStreamCloseCmd_Run. rewrite Hn, Hall, Harg. simpl.
    rewrite Hparse.
    destruct (Streams (nodeP2P n) !! H) as [s|] eqn:Es.
    - destruct (rangeOrder_registered _ _ _ _ Hrange Es)
        as (pre & post & -> & Hpre).
      rewrite resetLoop_hit by done. simpl. eexists. split; [reflexivity|].
      intros s' [= <-]. exists pre, post. repeat split; [done|]. lia.
    - rewrite resetLoop_miss by (by eapply rangeOrder_unregistered).
      simpl. exists (length order + 0)%nat. split; [|done].
      do 3 f_equal. unfold Reset. rewrite delete_id by done.
      f_equal. by destruct (nodeP2P n). }
  destruct Hrun as (visited & Hrun & Hscan).
  subst res after tr. rewrite Hrun. simpl.
  repeat split; try done.
  - by rewrite lookup_delete_ne.
  - intros order' Hrange'. eexists.
    split.
    + rewrite (p2pStreamLsCmd_Run_Ok X order' _ _
                 (p2pGetNode_withP2P X n _ Hn)). reflexivity.
    + apply list_elem_of_fmap. exists (id, s). split; [done|].
      apply (rangeOrder_elem _ _ _ _ Hrange').
      by rewrite lookup_delete_ne.
Qed.

(** Both sample orders are ranges of the sample stream map. *)
Lemma sample_range_12 : rangeOrder Sample.streams12 Sample.order12.
Proof.
  unfold rangeOrder, Sample.streams12, Sample.order12.
  rewrite map_to_list_insert by reflexivity.
  rewrite map_to_list_insert by reflexivity.
  by rewrite map_to_list_empty.
Qed.

Lemma sample_range_21 : rangeOrder Sample.streams12 Sample.order21.
Proof.
  unfold rangeOrder. rewrite <- sample_range_12. apply perm_swap.
Qed.

(** Closing stream 1 of two, met second in the range. *)
Lemma close_stream_by_handle_witness :
  (p2pStreamCloseCmd_Run Sample.externals Sample.order21
     (Sample.closeStream "1") (Ok Sample.node12)).1.1 =
    SetOutput VNil newResponse /\
  registeredStreams
    (p2pStreamCloseCmd_Run Sample.externals Sample.order21
       (Sample.closeStream "1") (Ok Sample.node12)).1.2 =
    delete 1%N Sample.streams12 /\
  trResets
    (p2pStreamCloseCmd_Run Sample.externals Sample.order21
       (Sample.closeStream "1") (Ok Sample.node12)).2 = [1%N] /\
  registeredStreams
    (p2pStreamCloseCmd_Run Sample.externals Sample.order21
       (Sample.closeStream "1") (Ok Sample.node12)).1.2 !! 2%N =
    Some Sample.s2.
Proof.
  destruct (close_stream_by_handle Sample.externals Sample.order21
              (Sample.closeStream "1") (Ok Sample.node12) Sample.node12
              "1"%string [] 1%N
              eq_refl eq_refl eq_refl eq_refl sample_range_21)
    as (Hres & _ & Hss & Htr & Hothers & _).
  split; [exact Hres|]. split; [exact Hss|]. split; [exact Htr|].
  apply (Hothers 2%N Sample.s2); [discriminate|reflexivity].
Defined.

(** ** Closing what is not there *)

(** C7, as the code has it: a close-stream call whose handle has no
    stream registered under it, and a close-listeners call whose criteria
    hold of no registered listener, both succeed. The first answers a nil
    output and no error after looking at every entry of the map; the
    second answers the count 0. Neither changes a registry. The calls are
    ones for which [p2pGetNode] succeeds and whose id and addresses parse. *)
Theorem close_without_match_succeeds (X : Externals) (ctx : InvocContext)
    (n : IpfsNode) :
  p2pGetNode X ctx = Ok n ->
  (forall order req arg rest H,
     bValue (scAll req) = false ->
     scArguments req = arg :: rest ->
     ParseUint X arg = Ok H ->
     rangeOrder (registeredStreams ctx) order ->
     registeredStreams ctx !! H = None ->
     p2pStreamCloseCmd_Run X order req ctx =
       (SetOutput VNil newResponse, ctx,
        {| trResets := []; trVisited := length order |})) /\
  (forall req,
     bValue (clAll req) = false ->
     sFound (clProtocol req) || sFound (clListen req) || sFound (clTarget req)
       = true ->
     parses X (sValue (clListen req)) ->
     parses X (sValue (clTarget req)) ->
     (forall l, l ∈ registeredListeners ctx -> ~ criteriaHold X req l) ->
     p2pCloseCmd_Run X req ctx = (SetOutput (VInt 0) newResponse, ctx)).
Proof.
  intros Hn. pose proof (p2pGetNode_Ok _ _ _ Hn) as ->. simpl. split.
  - intros order req arg rest H Hall Harg Hparse Hrange Hnone.
    unfold p2pStreamCloseCmd_Run. rewrite Hn, Hall, Harg. simpl.
    rewrite Hparse.
    rewrite resetLoop_miss by (by eapply rangeOrder_unregistered).
    simpl. rewrite Nat.add_0_r. do 3 f_equal.
    unfold withP2P. by destruct n as [? ? [? ?] ?].
  - intros req Hall Hsome [listen El] [target Et] Hno.
    rewrite (p2pCloseCmd_Run_selected X req (Ok n) n listen target Hn El Et)
      by (by rewrite Hall).
    rewrite Hall.
    set (mtch := matchListener false _ _ _ _ listen target).
    assert (Hempty : filter (fun l => mtch l = true) (Listeners (nodeP2P n)) = []).
    { apply elem_of_nil_inv. intros l. rewrite list_elem_of_filter.
      intros [Hm Hin]. apply (Hno l Hin).
      unfold mtch in Hm. apply matchListener_spec in Hm as (H1 & H2 & H3).
      unfold criteriaHold. rewrite El, Et.
      repeat split; [exact H1 | intros Hf; f_equal; auto ..]. }
    rewrite Hempty. simpl.
    rewrite (filter_all (fun x : Listener => x ∉ []))
      by (intros ? _; apply not_elem_of_nil).
    by rewrite withP2P_same.
Qed.

(** Handle 7 among streams 1 and 2, and a protocol no listener has. *)
Lemma close_without_match_succeeds_witness :
  p2pStreamCloseCmd_Run Sample.externals Sample.order21
    (Sample.closeStream "7") (Ok Sample.node12) =
    (SetOutput VNil newResponse, Ok Sample.node12,
     {| trResets := []; trVisited := 2 |}) /\
  p2pCloseCmd_Run Sample.externals (Sample.closeByProtocol "/x/none")
    (Ok Sample.node12) =
    (SetOutput (VInt 0) newResponse, Ok Sample.node12).
Proof.
  destruct (close_without_match_succeeds Sample.externals (Ok Sample.node12)
              Sample.node12 eq_refl)
    as [Hstream Hlisteners].
  split.
  - apply (Hstream Sample.order21 (Sample.closeStream "7") "7"%string [] 7%N);
      [reflexivity | reflexivity | reflexivity | exact sample_range_21
      | reflexivity].
  - apply Hlisteners;
      [reflexivity | reflexivity | by exists ""%string | by exists ""%string |].
    intros l Hin (Hproto & _).
    apply list_elem_of_singleton in Hin as ->.
    specialize (Hproto eq_refl). discriminate.
Defined.

(** C7, as the specification has it, fails: closing a stream handle that
    is not registered, and closing by a protocol no listener has, report
    success and no error. *)
Lemma close_without_match_reports_success :
  Streams (nodeP2P Sample.node12) !! 7%N = None /\
  resError
    (p2pStreamCloseCmd_Run Sample.externals Sample.order12
       (Sample.closeStream "7") (Ok Sample.node12)).1.1 = None /\
  resOutput
    (p2pStreamCloseCmd_Run Sample.externals Sample.order12
       (Sample.closeStream "7") (Ok Sample.node12)).1.1 = Some VNil /\
  Forall (fun l => Protocol l <> "/x/none"%string)
    (Listeners (nodeP2P Sample.node12)) /\
  resError
    (p2pCloseCmd_Run Sample.externals (Sample.closeByProtocol "/x/none")
       (Ok Sample.node12)).1 = None /\
  resOutput
    (p2pCloseCmd_Run Sample.externals (Sample.closeByProtocol "/x/none")
       (Ok Sample.node12)).1 = Some (VInt 0).
Proof.
  repeat split; try reflexivity.
  repeat constructor. discriminate.
Qed.

(** ** Listing *)

(** C8, as the code has it: list-listeners and list-streams give one
    entry per registered entity and nothing else. The listeners come in
    the order of the registry, so two calls on the same state agree. The
    streams come in the order the map is ranged in: every range gives an
    arrangement of the same entries, as many as streams are registered,
    with one entry for a handle exactly when a stream is registered under
    it; which arrangement is not fixed. Neither call changes a registry. *)
Theorem listings_complete (X : Externals) (ctx : InvocContext) (n : IpfsNode) :
  p2pGetNode X ctx = Ok n ->
  p2pLsCmd_Run X ctx =
    (SetOutput (VLs (map (listenerInfo X) (registeredListeners ctx)))
       newResponse, ctx) /\
  forall order, rangeOrder (registeredStreams ctx) order ->
    p2pStreamLsCmd_Run X order ctx =
      (SetOutput (VStreams (map (streamInfo X) order)) newResponse, ctx) /\
    map (streamInfo X) order ≡ₚ
      map (streamInfo X) (map_to_list (registeredStreams ctx)) /\
    length (map (streamInfo X) order) = size (registeredStreams ctx) /\
    NoDup (order.*1) /\
    (forall id s, (id, s) ∈ order <-> registeredStreams ctx !! id = Some s) /\
    (forall order', rangeOrder (registeredStreams ctx) order' ->
       map (streamInfo X) order' ≡ₚ map (streamInfo X) order).
Proof.
  intros Hn. split.
  - unfold p2pLsCmd_Run. rewrite Hn.
    by rewrite (p2pGetNode_Ok _ _ _ Hn).
  - intros order Hrange. split; [by eapply p2pStreamLsCmd_Run_Ok|].
    split; [by apply fmap_Permutation|].
    split.
    { rewrite length_map, <- length_map_to_list. by apply Permutation_length. }
    split; [by eapply rangeOrder_NoDup|].
    split; [intros id s; by apply rangeOrder_elem|].
    intros order' Hrange'. apply fmap_Permutation.
    unfold rangeOrder in *. by rewrite Hrange, Hrange'.
Qed.

(** One listener and two streams. *)
Lemma listings_complete_witness :
  p2pLsCmd_Run Sample.externals (Ok Sample.node12) =
    (SetOutput
       (VLs [mkListenerInfo "/x/p1" "/ip4/127.0.0.1/tcp/10101" "/ipfs/QmPeer"])
       newResponse, Ok Sample.node12) /\
  p2pStreamLsCmd_Run Sample.externals Sample.order21 (Ok Sample.node12) =
    (SetOutput
       (VStreams
          [mkStreamInfo "2" "/x/p2" "/ipfs/QmOther" "/ip4/127.0.0.1/tcp/1234";
           mkStreamInfo "1" "/x/p1" "/ip4/127.0.0.1/tcp/10101" "/ipfs/QmPeer"])
       newResponse, Ok Sample.node12) /\
  length (map (streamInfo Sample.externals) Sample.order21) =
    size Sample.streams12.
Proof.
  destruct (listings_complete Sample.externals (Ok Sample.node12)
              Sample.node12 eq_refl)
    as [Hls Hstreams].
  destruct (Hstreams Sample.order21 sample_range_21) as (Hrun & _ & Hlen & _).
  split; [exact Hls|]. split; [exact Hrun | exact Hlen].
Defined.

(** C8, as the specification has it, fails for list-streams: on one and
    the same node state the map of two streams can be ranged in either
    order, and the two listings are different sequences; no order of
    insertion is kept in the map to tell them apart. *)
Lemma list_streams_order_not_fixed :
  rangeOrder (registeredStreams (Ok Sample.node12)) Sample.order12 /\
  rangeOrder (registeredStreams (Ok Sample.node12)) Sample.order21 /\
  (p2pStreamLsCmd_Run Sample.externals Sample.order12 (Ok Sample.node12)).2 =
    Ok Sample.node12 /\
  (p2pStreamLsCmd_Run Sample.externals Sample.order12 (Ok Sample.node12)).1 <>
  (p2pStreamLsCmd_Run Sample.externals Sample.order21 (Ok Sample.node12)).1.
Proof.
  split; [exact sample_range_12|]. split; [exact sample_range_21|].
  split; [reflexivity|]. discriminate.
Qed.

(** * Further properties of the commands *)

(** ** The node check, from the side of the commands *)

Lemma p2pGetNode_enabled (X : Externals) (ctx : InvocContext) (n : IpfsNode) :
  p2pGetNode X ctx = Ok n -> enabled ctx.
Proof.
  unfold p2pGetNode, enabled. destruct ctx as [m|e]; [|discriminate].
  destruct (RepoConfig m) as [c|e] eqn:Ec; [|discriminate].
  destruct (Libp2pStreamMounting c) eqn:Ef; [|discriminate].
  destruct (OnlineMode m) eqn:Eo; [|discriminate].
  intros _. by exists m, c.
Qed.

(** X1: a command that answers without an error, or that leaves the
    context different from what it was, or that panics, ran on a node
    that exists, whose configuration was readable with the stream
    mounting flag on, and that was online. *)
Theorem commands_need_enabled_node (X : Externals) (ctx : InvocContext) :
  (forall req,
     p2pForwardCmd_Run X req ctx = NilDereference \/
     (exists res ctx',
        p2pForwardCmd_Run X req ctx = Returns (res, ctx') /\
        (resError res = None \/ ctx' <> ctx)) ->
     enabled ctx) /\
  (forall req,
     resError (p2pListenCmd_Run X req ctx).1 = None \/
     (p2pListenCmd_Run X req ctx).2 <> ctx -> enabled ctx) /\
  (resError (p2pLsCmd_Run X ctx).1 = None \/
   (p2pLsCmd_Run X ctx).2 <> ctx -> enabled ctx) /\
  (forall req,
     resError (p2pCloseCmd_Run X req ctx).1 = None \/
     (p2pCloseCmd_Run X req ctx).2 <> ctx -> enabled ctx) /\
  (forall order,
     resError (p2pStreamLsCmd_Run X order ctx).1 = None \/
     (p2pStreamLsCmd_Run X order ctx).2 <> ctx -> enabled ctx) /\
  (forall order req,
     resError (p2pStreamCloseCmd_Run X order req ctx).1.1 = None \/
     (p2pStreamCloseCmd_Run X order req ctx).1.2 <> ctx \/
     trResets (p2pStreamCloseCmd_Run X order req ctx).2 <> [] -> enabled ctx).
Proof.
  destruct (p2pGetNode X ctx) as [n|e] eqn:En.
  { pose proof (p2pGetNode_enabled _ _ _ En). repeat split; auto. }
  destruct (getNode_error_every_command X ctx e En)
    as (Hfw & Hln & Hls & Hcl & Hsl & Hsc).
  split; [|split; [|split; [|split; [|split]]]].
  - intros req [Hp | (res & ctx' & Hr & Hc)]; rewrite Hfw in *; [done|].
    injection Hr as <- <-. by destruct Hc.
  - intros req. rewrite Hln. simpl. by intros [|].
  - rewrite Hls. simpl. by intros [|].
  - intros req. rewrite Hcl. simpl. by intros [|].
  - intros order. rewrite Hsl. simpl. by intros [|].
  - intros order req. rewrite Hsc. simpl. by intros [|[|]].
Qed.

(** A listing that succeeded. *)
Lemma commands_need_enabled_node_witness : enabled (Ok Sample.node12).
Proof.
  apply (proj1 (proj2 (proj2 (commands_need_enabled_node Sample.externals
                                (Ok Sample.node12))))).
  left. reflexivity.
Defined.

(** X2: when the invocation context has no node, or the configuration of
    the node cannot be read, every command answers exactly the error it
    was given and leaves the context as it was; this holds whether or
    not the node is online. *)
Theorem node_errors_are_passed_on (X : Externals) (ctx : InvocContext)
    (e : error) :
  ctx = Err e \/ (exists n, ctx = Ok n /\ RepoConfig n = Err e) ->
  (forall req, p2pForwardCmd_Run X req ctx = Returns (SetError e newResponse, ctx)) /\
  (forall req, p2pListenCmd_Run X req ctx = (SetError e newResponse, ctx)) /\
  p2pLsCmd_Run X ctx = (SetError e newResponse, ctx) /\
  (forall req, p2pCloseCmd_Run X req ctx = (SetError e newResponse, ctx)) /\
  (forall order, p2pStreamLsCmd_Run X order ctx = (SetError e newResponse, ctx)) /\
  (forall order req,
     p2pStreamCloseCmd_Run X order req ctx =
       (SetError e (SetOutput VNil newResponse), ctx, noTrace)).
Proof.
  intros Hfail. apply getNode_error_every_command.
  destruct Hfail as [-> | (n & -> & Hc)]; [done|].
  unfold p2pGetNode. by rewrite Hc.
Qed.

(** A node whose repository is closed, asked to list its streams. *)
Lemma node_errors_are_passed_on_witness :
  p2pStreamLsCmd_Run Sample.externals Sample.order12
    (Ok SampleText.nodeNoConfig) =
    (SetError "repo closed" newResponse, Ok SampleText.nodeNoConfig).
Proof.
  apply (node_errors_are_passed_on Sample.externals
           (Ok SampleText.nodeNoConfig) "repo closed"%string).
  right. exists SampleText.nodeNoConfig. split; reflexivity.
Defined.

(** ** Closing all streams, and ids that cannot be used *)

Lemma resetLoop_all (handlerID : N) (order : list (N * Stream)) (p : P2P)
    (tr : Trace) :
  resetLoop true handlerID order p tr =
    ({| Listeners := Listeners p;
        Streams := foldl (fun m e => delete e.1 m) (Streams p) order |},
     {| trResets := trResets tr ++ order.*1;
        trVisited := (length order + trVisited tr)%nat |}).
Proof.
  revert p tr. induction order as [|[id s] rest IH]; intros p tr; simpl.
  - rewrite app_nil_r. by destruct p, tr.
  - rewrite IH. simpl. rewrite <- app_assoc. simpl. do 3 f_equal. lia.
Qed.

Lemma lookup_foldl_delete (m : gmap N Stream) (order : list (N * Stream)) k :
  foldl (fun m e => delete e.1 m) m order !! k =
    if decide (k ∈ order.*1) then None else m !! k.
Proof.
  revert m. induction order as [|[id s] rest IH]; intros m.
  - cbn [foldl fmap list_fmap]. case_decide as Hin; [|done].
    by apply elem_of_nil in Hin.
  - cbn [foldl]. rewrite IH, fmap_cons. cbn [fst].
    destruct (decide (k ∈ rest.*1)) as [Hin|Hnin];
      destruct (decide (k ∈ id :: rest.*1)) as [Hin'|Hnin']; try done.
    + exfalso. apply Hnin'. by right.
    + apply elem_of_cons in Hin' as [->|Hin']; [|done].
      apply lookup_delete_eq.
    + apply lookup_delete_ne. intros ->. apply Hnin'. left.
Qed.

Lemma foldl_delete_range (m : gmap N Stream) (order : list (N * Stream)) :
  rangeOrder m order -> foldl (fun m e => delete e.1 m) m order = ∅.
Proof.
  intros Hrange. apply map_eq. intros k.
  rewrite lookup_foldl_delete, lookup_empty.
  destruct (decide (k ∈ order.*1)) as [Hin|Hnin]; [done|].
  destruct (m !! k) as [s|] eqn:Es; [|done].
  exfalso. apply Hnin. apply list_elem_of_fmap. exists (k, s).
  split; [done|]. by apply (rangeOrder_elem _ _ _ _ Hrange).
Qed.

Lemma p2pStreamCloseCmd_Run_all (X : Externals) (order : list (N * Stream))
    (req : StreamCloseReq) (ctx : InvocContext) (n : IpfsNode) :
  p2pGetNode X ctx = Ok n ->
  bValue (scAll req) = true ->
  p2pStreamCloseCmd_Run X order req ctx =
    (SetOutput VNil newResponse,
     Ok (withP2P n
           {| Listeners := Listeners (nodeP2P n);
              Streams := foldl (fun m e => delete e.1 m)
                           (Streams (nodeP2P n)) order |}),
     {| trResets := order.*1; trVisited := length order |}).
Proof.
  intros Hn Hall. unfold p2pStreamCloseCmd_Run. rewrite Hn, Hall. simpl.
  rewrite resetLoop_all. simpl. by rewrite Nat.add_0_r.
Qed.

Lemma p2pStreamCloseCmd_Run_handle (X : Externals) (order : list (N * Stream))
    (req : StreamCloseReq) (ctx : InvocContext) (n : IpfsNode)
    (arg : string) (rest : list string) (H : N) :
  p2pGetNode X ctx = Ok n ->
  bValue (scAll req) = false ->
  scArguments req = arg :: rest ->
  ParseUint X arg = Ok H ->
  rangeOrder (Streams (nodeP2P n)) order ->
  (p2pStreamCloseCmd_Run X order req ctx).1 =
    (SetOutput VNil newResponse, Ok (withP2P n (Reset H (nodeP2P n)))).
Proof.
  intros Hn Hall Harg Hparse Hrange.
  unfold p2pStreamCloseCmd_Run. rewrite Hn, Hall, Harg. simpl.
  rewrite Hparse.
  destruct (Streams (nodeP2P n) !! H) as [s|] eqn:Es.
  - destruct (rangeOrder_registered _ _ _ _ Hrange Es)
      as (pre & post & -> & Hpre).
    by rewrite resetLoop_hit.
  - rewrite resetLoop_miss by (by eapply rangeOrder_unregistered).
    simpl. do 3 f_equal. unfold Reset. rewrite delete_id by done.
    by destruct (nodeP2P n).
Qed.

(** X3: close-stream with [--all] resets every registered stream, each
    once and in the order of the range, looks at every entry, answers a
    nil output and no error, and leaves the stream registry empty and the
    listeners as they were; a following list-streams lists nothing. The
    arguments are not looked at: an id that is missing or malformed does
    not matter. *)
Theorem close_stream_all (X : Externals) (order : list (N * Stream))
    (req : StreamCloseReq) (ctx : InvocContext) (n : IpfsNode) :
  p2pGetNode X ctx = Ok n ->
  bValue (scAll req) = true ->
  rangeOrder (registeredStreams ctx) order ->
  let after := (p2pStreamCloseCmd_Run X order req ctx).1.2 in
  p2pStreamCloseCmd_Run X order req ctx =
    (SetOutput VNil newResponse,
     Ok (withP2P n {| Listeners := Listeners (nodeP2P n); Streams := ∅ |}),
     {| trResets := order.*1; trVisited := length order |}) /\
  (forall id, id ∈ order.*1 <-> is_Some (registeredStreams ctx !! id)) /\
  NoDup (order.*1) /\
  (forall order', rangeOrder (registeredStreams after) order' ->
     p2pStreamLsCmd_Run X order' after =
       (SetOutput (VStreams []) newResponse, after)).
Proof.
  intros Hn Hall Hrange after.
  pose proof (p2pGetNode_Ok _ _ _ Hn) as ->. simpl in Hrange.
  subst after. rewrite (p2pStreamCloseCmd_Run_all X order req _ n Hn Hall).
  rewrite (foldl_delete_range _ _ Hrange). cbn [fst snd].
  split; [done|]. split.
  { intros id. rewrite list_elem_of_fmap. split.
    - intros ([id' s] & -> & Hin). exists s.
      by apply (rangeOrder_elem _ _ _ _ Hrange).
    - intros [s Hs]. exists (id, s). split; [done|].
      by apply (rangeOrder_elem _ _ _ _ Hrange). }
  split; [by eapply rangeOrder_NoDup|].
  intros order' Hrange'. simpl in Hrange'. unfold rangeOrder in Hrange'.
  rewrite map_to_list_empty in Hrange'. apply Permutation_nil_r in Hrange'.
  subst order'.
  by rewrite (p2pStreamLsCmd_Run_Ok X [] _ _ (p2pGetNode_withP2P X n _ Hn)).
Qed.

(** Two streams, closed with [--all] and an id that is no number. *)
Lemma close_stream_all_witness :
  p2pStreamCloseCmd_Run Sample.externals Sample.order21
    (mkStreamCloseReq ["x"%string] (Sample.flag true)) (Ok Sample.node12) =
    (SetOutput VNil newResponse, Ok (Sample.node [Sample.l1] ∅),
     {| trResets := [2%N; 1%N]; trVisited := 2 |}).
Proof.
  apply (close_stream_all Sample.externals Sample.order21
           (mkStreamCloseReq ["x"%string] (Sample.flag true))
           (Ok Sample.node12) Sample.node12 eq_refl eq_refl sample_range_21).
Defined.

(** X4: close-stream without [--all] needs an id it can read. With no
    argument it answers the error "no id specified"; with a first
    argument that does not parse as an unsigned number it answers the
    error of the parse. In both cases no stream is reset, no entry of the
    map is looked at and the context stays as it was; the response still
    carries the nil output set at the start. *)
Theorem close_stream_unusable_id (X : Externals) (order : list (N * Stream))
    (req : StreamCloseReq) (ctx : InvocContext) (n : IpfsNode) :
  p2pGetNode X ctx = Ok n ->
  bValue (scAll req) = false ->
  (scArguments req = [] ->
   p2pStreamCloseCmd_Run X order req ctx =
     (SetError "no id specified" (SetOutput VNil newResponse), ctx, noTrace)) /\
  (forall arg rest e,
     scArguments req = arg :: rest ->
     ParseUint X arg = Err e ->
     p2pStreamCloseCmd_Run X order req ctx =
       (SetError e (SetOutput VNil newResponse), ctx, noTrace)).
Proof.
  intros Hn Hall. unfold p2pStreamCloseCmd_Run. rewrite Hn, Hall. simpl.
  split.
  - by intros ->.
  - intros arg rest e -> Herr. by rewrite Herr.
Qed.

(** No id, and an id with a letter in it. *)
Lemma close_stream_unusable_id_witness :
  p2pStreamCloseCmd_Run Sample.externals Sample.order12
    (mkStreamCloseReq [] (Sample.flag false)) (Ok Sample.node12) =
    (SetError "no id specified" (SetOutput VNil newResponse),
     Ok Sample.node12, noTrace) /\
  p2pStreamCloseCmd_Run Sample.externals Sample.order12
    (Sample.closeStream "1a") (Ok Sample.node12) =
    (SetError "invalid syntax" (SetOutput VNil newResponse),
     Ok Sample.node12, noTrace).
Proof.
  split.
  - apply (close_stream_unusable_id Sample.externals Sample.order12
             (mkStreamCloseReq [] (Sample.flag false)) (Ok Sample.node12)
             Sample.node12 eq_refl eq_refl).
    reflexivity.
  - apply (proj2 (close_stream_unusable_id Sample.externals Sample.order12
                    (Sample.closeStream "1a") (Ok Sample.node12)
                    Sample.node12 eq_refl eq_refl) "1a"%string []);
      reflexivity.
Defined.

(** X5: what close-stream answers and the context it leaves do not
    depend on the order in which the stream map is ranged: any two ranges
    of the same registry give the same response and the same registries
    afterwards, with [--all] as with an id. (Only the order of the resets
    and the number of entries looked at can differ.) *)
Theorem close_stream_order_independent (X : Externals)
    (order1 order2 : list (N * Stream)) (req : StreamCloseReq)
    (ctx : InvocContext) :
  rangeOrder (registeredStreams ctx) order1 ->
  rangeOrder (registeredStreams ctx) order2 ->
  (p2pStreamCloseCmd_Run X order1 req ctx).1 =
  (p2pStreamCloseCmd_Run X order2 req ctx).1.
Proof.
  intros H1 H2.
  destruct (p2pGetNode X ctx) as [n|e] eqn:Hn.
  2:{ destruct (getNode_error_every_command X ctx e Hn) as (_&_&_&_&_& Hsc).
      by rewrite !Hsc. }
  pose proof (p2pGetNode_Ok _ _ _ Hn) as ->. simpl in H1, H2.
  destruct (bValue (scAll req)) eqn:Hall.
  - rewrite !(p2pStreamCloseCmd_Run_all X _ req _ n Hn Hall). simpl.
    by rewrite (foldl_delete_range _ _ H1), (foldl_delete_range _ _ H2).
  - destruct (scArguments req) as [|arg rest] eqn:Harg.
    { unfold p2pStreamCloseCmd_Run. by rewrite Hn, Hall, Harg. }
    destruct (ParseUint X arg) as [H|e] eqn:Hparse.
    + by rewrite (p2pStreamCloseCmd_Run_handle X order1 req _ n arg rest H),
        (p2pStreamCloseCmd_Run_handle X order2 req _ n arg rest H).
    + unfold p2pStreamCloseCmd_Run. rewrite Hn, Hall, Harg. simpl.
      by rewrite Hparse.
Qed.

(** Closing stream 1 under either range of the two sample streams. *)
Lemma close_stream_order_independent_witness :
  (p2pStreamCloseCmd_Run Sample.externals Sample.order12
     (Sample.closeStream "1") (Ok Sample.node12)).1 =
  (p2pStreamCloseCmd_Run Sample.externals Sample.order21
     (Sample.closeStream "1") (Ok Sample.node12)).1.
Proof.
  apply (close_stream_order_independent Sample.externals Sample.order12
           Sample.order21 (Sample.closeStream "1") (Ok Sample.node12)
           sample_range_12 sample_range_21).
Defined.

(** ** Closing listeners: what is counted, what is reported *)

Lemma filter_ext_in {A} (P Q : A -> Prop) `{!forall x, Decision (P x)}
    `{!forall x, Decision (Q x)} (l : list A) :
  (forall x, x ∈ l -> (P x <-> Q x)) -> filter P l = filter Q l.
Proof.
  induction l as [|a l IH]; intros Hext; [done|].
  rewrite !filter_cons.
  assert (Ha : P a <-> Q a) by (apply Hext; left).
  rewrite IH by (intros x Hx; apply Hext; by right).
  destruct (decide (P a)), (decide (Q a)); tauto.
Qed.

Lemma length_filter_split {A} (P : A -> Prop) `{!forall x, Decision (P x)}
    (l : list A) :
  (length (filter P l) + length (filter (fun x => ~ P x) l))%nat = length l.
Proof.
  induction l as [|a l IH]; [done|].
  rewrite !filter_cons.
  destruct (decide (P a)), (decide (~ P a)); simpl; try tauto; lia.
Qed.

Lemma filter_not_in_filter {A} (P : A -> Prop) `{!forall x, Decision (P x)}
    `{!EqDecision A} (l : list A) :
  filter (fun x => x ∉ filter P l) l = filter (fun x => ~ P x) l.
Proof.
  apply filter_ext_in. intros x Hx. rewrite list_elem_of_filter. tauto.
Qed.

(** X6: a close-listeners call that is let through (options valid,
    addresses parse) only takes listeners away: the listeners afterwards
    are a subsequence of those before, in the same order; the streams
    and the peerstore stay as they were; and a count that is answered is
    exactly the number of listeners by which the registry shrank. When no
    error is answered a count is. *)
Theorem close_listeners_accounting (X : Externals) (req : CloseReq)
    (ctx : InvocContext) (n : IpfsNode) :
  p2pGetNode X ctx = Ok n ->
  parses X (sValue (clListen req)) ->
  parses X (sValue (clTarget req)) ->
  validOptions req = true ->
  let res := (p2pCloseCmd_Run X req ctx).1 in
  let after := (p2pCloseCmd_Run X req ctx).2 in
  sublist (registeredListeners after) (registeredListeners ctx) /\
  registeredStreams after = registeredStreams ctx /\
  (exists n', after = Ok n' /\ nodePeerstore n' = nodePeerstore n) /\
  (forall k, resOutput res = Some (VInt k) ->
     Z.of_nat (length (registeredListeners ctx)) =
     Z.of_nat (length (registeredListeners after)) + k) /\
  (resError res = None -> exists k, resOutput res = Some (VInt k)).
Proof.
  intros Hn [listen El] [target Et] Hvalid res after.
  pose proof (p2pGetNode_Ok _ _ _ Hn) as ->. subst res after.
  rewrite (p2pCloseCmd_Run_selected X req (Ok n) n listen target Hn El Et Hvalid).
  set (mtch := matchListener _ _ _ _ _ listen target).
  cbn [fst snd registeredListeners registeredStreams withP2P nodeP2P Listeners
       Streams].
  rewrite filter_not_in_filter.
  pose proof (length_filter_split (fun l => mtch l = true)
                (Listeners (nodeP2P n))) as Hlen.
  split; [apply sublist_filter|]. split; [done|].
  split; [by eexists|].
  destruct (negb _); simpl; split; try discriminate.
  - intros k [= <-]. lia.
  - intros _. by eexists.
Qed.

(** Two of three listeners closed by protocol. *)
Lemma close_listeners_accounting_witness :
  (p2pCloseCmd_Run Sample.externals (Sample.closeByProtocol "/x/p1")
     (Ok Sample.node3)).1 = SetOutput (VInt 2) newResponse /\
  Z.of_nat (length (registeredListeners (Ok Sample.node3))) =
  Z.of_nat (length (registeredListeners
              (p2pCloseCmd_Run Sample.externals
                 (Sample.closeByProtocol "/x/p1") (Ok Sample.node3)).2)) + 2.
Proof.
  split; [reflexivity|].
  apply (close_listeners_accounting Sample.externals
           (Sample.closeByProtocol "/x/p1") (Ok Sample.node3) Sample.node3
           eq_refl (ex_intro _ ""%string eq_refl)
           (ex_intro _ ""%string eq_refl) eq_refl).
  reflexivity.
Defined.





(** ** What a forward leaves in the peerstore *)

(** X9: a forward that gets as far as [forwardLocal] (node check, both
    addresses and the option read without error, prefix or flag fine)
    has recorded the address of the target peer in the peerstore, with
    the temporary time to live, before it asks for the listener: the
    entry is there afterwards also when [ForwardLocal] fails and the
    command answers its error. The registries are what [ForwardLocal]
    left. A listen never writes to the peerstore. *)
Theorem forward_records_temporary_address (X : Externals)
    (ctx : InvocContext) (n : IpfsNode) :
  p2pGetNode X ctx = Ok n ->
  (forall req listen a,
     NewMultiaddr X (fwListen req) = Ok listen ->
     ParseString X (fwTarget req) = (Some a, None) ->
     bErr (fwAllowCustom req) = None ->
     bValue (fwAllowCustom req) || HasPrefix (fwProtocol req) P2PProtoPrefix
       = true ->
     let r := ForwardLocal X (ID a) (fwProtocol req) listen (nodeP2P n) in
     p2pForwardCmd_Run X req ctx =
       Returns
         (match r.2 with
          | Some err => SetError err newResponse
          | None => SetOutput VNil newResponse
          end,
          Ok {| RepoConfig := RepoConfig n; OnlineMode := OnlineMode n;
                nodeP2P := r.1;
                nodePeerstore :=
                  nodePeerstore n ++
                  [(ID a, addrMultiaddr a, TempAddrTTL X)] |})) /\
  (forall req,
     exists n', (p2pListenCmd_Run X req ctx).2 = Ok n' /\
                nodePeerstore n' = nodePeerstore n).
Proof.
  intros Hn. split.
  - intros req listen a El Et Hb Hpass r. unfold p2pForwardCmd_Run.
    rewrite Hn, El, Et, Hb.
    replace (negb (bValue (fwAllowCustom req)) &&
             negb (HasPrefix (fwProtocol req) P2PProtoPrefix)) with false
      by (destruct (bValue (fwAllowCustom req)),
            (HasPrefix (fwProtocol req) P2PProtoPrefix); done).
    unfold forwardLocal, forwardOutcome. fold r. by destruct r as [p' [e|]].
  - intros req. pose proof (p2pGetNode_Ok _ _ _ Hn) as ->.
    unfold p2pListenCmd_Run. rewrite Hn.
    destruct (NewMultiaddr X (lnTarget req)); [|by eexists].
    destruct (bErr (lnAllowCustom req)); [by eexists|].
    destruct (negb _ && negb _); by eexists.
Qed.

(** A forward whose listener cannot be set up. *)
Lemma forward_records_temporary_address_witness :
  p2pForwardCmd_Run SampleText.externalsFailing
    (Sample.forwardTo "/ipfs/QmPeer") (Ok Sample.node0) =
    Returns
      (SetError "listen failed" newResponse,
       Ok {| RepoConfig := Ok Sample.config; OnlineMode := true;
             nodeP2P := {| Listeners := []; Streams := ∅ |};
             nodePeerstore :=
               [("QmPeer"%string, "/ipfs/QmPeer"%string, 10000000000)] |}).
Proof.
  apply (proj1 (forward_records_temporary_address SampleText.externalsFailing
                  (Ok Sample.node0) Sample.node0 eq_refl)
           (Sample.forwardTo "/ipfs/QmPeer") "/ip4/127.0.0.1/tcp/4567"%string
           {| ID := "QmPeer"%string; addrMultiaddr := "/ipfs/QmPeer"%string |});
    reflexivity.
Defined.

(** ** The text the marshalers write *)

Lemma string_app_cons (a : ascii) (s t : string) :
  String a s +:+ t = String a (s +:+ t).
Proof. reflexivity. Qed.

Lemma string_app_assoc (s t u : string) : (s +:+ t) +:+ u = s +:+ t +:+ u.
Proof.
  induction s as [|a s IH]; [done|].
  by rewrite !string_app_cons, IH.
Qed.

Lemma string_app_nil_r (s : string) : s +:+ "" = s.
Proof.
  induction s as [|a s IH]; [done|]. by rewrite string_app_cons, IH.
Qed.


Lemma writeStreams_concat (headers : bool)
    (list : list P2PStreamInfoOutput) (w : string) :
  writeStreams headers list w =
    w +:+ String.concat "" (map (streamLines headers) list).
Proof.
  revert w. induction list as [|l rest IH]; intros w.
  - simpl. by rewrite string_app_nil_r.
  - cbn [writeStreams]. rewrite IH.
    assert (Hc : forall x xs, String.concat "" (x :: xs)
                              = x +:+ String.concat "" xs).
    { intros x [|y ys]; simpl; [by rewrite string_app_nil_r | done]. }
    rewrite map_cons, Hc. unfold streamLines.
    destruct headers; rewrite ?string_app_assoc; reflexivity.
Qed.

Section MarshalerProperties.

Variable unwrapOutput : option Value -> result Value.
Variable tabwriter : string -> string.
Variable formatInt : Z -> string.

(** [unwrapOutput] hands over the value the command set. *)
Hypothesis unwrapOutput_set : forall v, unwrapOutput (Some v) = Ok v.


(** X11: the text of a listing of streams. On what a successful stream ls
    answered the marshaler does not panic and gives the tabwriter, for
    each entry in the order the map was ranged in, the header line if
    headers were asked for and then the row of handle, protocol, origin
    and target, tab-separated; with no stream nothing is written. *)
Theorem stream_ls_text_lines (X : Externals) (order : list (N * Stream))
    (ctx : InvocContext) (n : IpfsNode) (headersOpt : BoolOpt) :
  p2pGetNode X ctx = Ok n ->
  rangeOrder (registeredStreams ctx) order ->
  p2pStreamLsCmd_Text unwrapOutput tabwriter
    (p2pStreamLsCmd_Run X order ctx).1 headersOpt =
    MarshalText
      (tabwriter
         (String.concat ""
            (map (fun e => streamLines (bValue headersOpt) (streamInfo X e))
               order))) /\
  (registeredStreams ctx = ∅ ->
   p2pStreamLsCmd_Text unwrapOutput tabwriter
     (p2pStreamLsCmd_Run X order ctx).1 headersOpt =
     MarshalText (tabwriter "")).
Proof.
  intros Hn Hrange. rewrite (p2pStreamLsCmd_Run_Ok X order ctx n Hn).
  unfold p2pStreamLsCmd_Text. simpl.
  rewrite unwrapOutput_set, writeStreams_concat. simpl.
  rewrite map_map. split; [done|]. intros Hempty.
  unfold rangeOrder in Hrange. rewrite Hempty, map_to_list_empty in Hrange.
  apply Permutation_nil_r in Hrange. by subst order.
Qed.

(** X12: the text after closing listeners. On what a close-listeners
    call answered without error the marshaler does not panic and writes
    "Closed ", the number by which the listener registry shrank, and
    " stream(s)" with a line end. *)
Theorem close_text_count (X : Externals) (req : CloseReq)
    (ctx : InvocContext) (n : IpfsNode) :
  p2pGetNode X ctx = Ok n ->
  resError (p2pCloseCmd_Run X req ctx).1 = None ->
  p2pCloseCmd_Text unwrapOutput formatInt (p2pCloseCmd_Run X req ctx).1 =
    MarshalText
      ("Closed " +:+
       formatInt
         (Z.of_nat (length (registeredListeners ctx)) -
          Z.of_nat (length (registeredListeners (p2pCloseCmd_Run X req ctx).2)))
       +:+ " stream(s)" +:+ newline).
Proof.
  intros Hn Hok. pose proof (p2pGetNode_Ok _ _ _ Hn) as ->.
  destruct (NewMultiaddr X (sValue (clListen req))) as [listen|e] eqn:El.
  2:{ unfold p2pCloseCmd_Run in Hok. by rewrite Hn, El in Hok. }
  destruct (NewMultiaddr X (sValue (clTarget req))) as [target|e] eqn:Et.
  2:{ unfold p2pCloseCmd_Run in Hok. by rewrite Hn, El, Et in Hok. }
  destruct (validOptions req) eqn:Hvalid.
  2:{ unfold p2pCloseCmd_Run in Hok. rewrite Hn, El, Et in Hok.
      unfold validOptions in Hvalid.
      destruct (bValue (clAll req)), (sFound (clProtocol req)),
        (sFound (clListen req)), (sFound (clTarget req)); done. }
  revert Hok.
  rewrite (p2pCloseCmd_Run_selected X req (Ok n) n listen target Hn El Et Hvalid).
  set (mtch := matchListener _ _ _ _ _ listen target).
  cbn [fst snd registeredListeners withP2P nodeP2P Listeners].
  rewrite filter_not_in_filter.
  pose proof (length_filter_split (fun l => mtch l = true)
                (Listeners (nodeP2P n))) as Hlen.
  destruct (negb _); [discriminate|]. intros _.
  unfold p2pCloseCmd_Text. cbn [resOutput SetOutput newResponse].
  rewrite unwrapOutput_set.
  do 4 f_equal. cbv beta in Hlen. unfold not in *. lia.
Qed.

End MarshalerProperties.


(** Two streams listed with headers. *)
Lemma stream_ls_text_lines_witness :
  p2pStreamLsCmd_Text SampleText.unwrapOutput SampleText.tabwriter
    (p2pStreamLsCmd_Run Sample.externals Sample.order21 (Ok Sample.node12)).1
    (Sample.flag true) =
    MarshalText
      (String.concat ""
         (map (fun e => streamLines true (streamInfo Sample.externals e))
            Sample.order21)).
Proof.
  apply (stream_ls_text_lines SampleText.unwrapOutput SampleText.tabwriter
           (fun v => eq_refl) Sample.externals Sample.order21
           (Ok Sample.node12) Sample.node12 (Sample.flag true) eq_refl
           sample_range_21).
Defined.

(** Two of three listeners closed. *)
Lemma close_text_count_witness :
  p2pCloseCmd_Text SampleText.unwrapOutput SampleText.formatInt
    (p2pCloseCmd_Run Sample.externals (Sample.closeByProtocol "/x/p1")
       (Ok Sample.node3)).1 =
    MarshalText ("Closed 2 stream(s)" +:+ newline).
Proof.
  apply (close_text_count SampleText.unwrapOutput SampleText.formatInt
           (fun v => eq_refl) Sample.externals
           (Sample.closeByProtocol "/x/p1") (Ok Sample.node3) Sample.node3
           eq_refl eq_refl).
Defined.

(** ** The order of the checks of the close command *)

(** X13: the close command parses both address options before it looks
    at which options were given. An error of parsing the listen address
    is answered first, an error of parsing the target address next, in
    both cases with the context untouched and whatever the combination
    of options is: also with [--all], and also for an address option that
    was not given. *)
Theorem close_listeners_parses_first (X : Externals) (req : CloseReq)
    (ctx : InvocContext) (n : IpfsNode) :
  p2pGetNode X ctx = Ok n ->
  (forall e,
     NewMultiaddr X (sValue (clListen req)) = Err e ->
     p2pCloseCmd_Run X req ctx = (SetError e newResponse, ctx)) /\
  (forall e,
     parses X (sValue (clListen req)) ->
     NewMultiaddr X (sValue (clTarget req)) = Err e ->
     p2pCloseCmd_Run X req ctx = (SetError e newResponse, ctx)).
Proof.
  intros Hn. unfold p2pCloseCmd_Run. rewrite Hn. split.
  - by intros e ->.
  - intros e [listen ->] Ht. by rewrite Ht.
Qed.

(** [--all] together with a listen address that is no address. *)
Lemma close_listeners_parses_first_witness :
  p2pCloseCmd_Run Sample.externals
    (mkCloseReq (Sample.flag true) Sample.unset (Sample.given "garbage")
       Sample.unset) (Ok Sample.node3) =
    (SetError "invalid multiaddr, must begin with /" newResponse,
     Ok Sample.node3).
Proof.
  apply (proj1 (close_listeners_parses_first Sample.externals
                  (mkCloseReq (Sample.flag true) Sample.unset
                     (Sample.given "garbage") Sample.unset)
                  (Ok Sample.node3) Sample.node3 eq_refl)).
  reflexivity.
Defined.
